(** * LangChainTracer and RunnableTraceable

    A shallow embedding of [langchain-core/src/tracers/tracer_langchain.ts]:
    the tracer that hydrates its run map from an ambient run tree at
    construction, converts runs to the create/update payloads of the
    persistence client, and the runnable that wraps a traceable function.

    JavaScript objects that are shared by reference (the nodes of the ambient
    run tree, which may point at each other in cycles) live in an explicit
    heap; object literals sent to the client are finite maps from property
    names to values; asynchronous calls that may reject are computations in a
    small error monad that threads the log of requests sent to the client. *)

From stdpp Require Import gmap strings list fin_maps fin_sets.

Set Warnings "-register-all".
Open Scope string_scope.
Open Scope list_scope.
Open Scope nat_scope.

(** ** Values *)

(** Free-form data ([any] in a [KVMap]). *)
Inductive json : Type :=
| JNull
| JBool (b : bool)
| JNum (n : Z)
| JStr (s : string)
| JArr (items : list json)
| JObj (props : list (string * json)).

(** [KVMap = Record<string, any>]. *)
Abbreviation KVMap := (gmap string json).

(** A heap address: the identity of a JavaScript object. *)
Definition loc := nat.

(** A persistence client is compared by identity only; what its calls do is
    given by the host (below). *)
Inductive Client : Type := ClientRef (n : nat).

Record Error : Type := mkError { message : string }.

(** ** Run records

    [interface Run extends BaseRun]. The fields of [BaseRun] (declared in the
    langsmith package) are taken from the data model of the specification:
    [parent_run_id], [start_time], [end_time], [inputs], [outputs], [events],
    [error], [extra]. Numbers are only ever copied. *)
Inductive Run : Type := mkRun {
  id : string;
  parent_run_id : option string;
  child_runs : list Run;
  child_execution_order : Z;
  dotted_order : option string;
  trace_id : option string;
  start_time : option Z;
  end_time : option Z;
  inputs : KVMap;
  outputs : option KVMap;
  events : option (list KVMap);
  error : option string;
  extra : option KVMap
}.

(** The value of a property of an object literal. *)
Inductive jsval : Type :=
| VUndefined
| VNumber (n : Z)
| VString (s : string)
| VMap (m : KVMap)
| VEvents (es : list KVMap)
| VRuns (rs : list Run).

(** An object literal: its own properties. A property may be present and hold
    [undefined]. *)
Abbreviation obj := (gmap string jsval).

(** Reading [o.k]: a missing property reads as [undefined]. *)
Definition field (o : obj) (k : string) : jsval := default VUndefined (o !! k).

(** An optional field [x?: T] as a value. *)
Definition of_opt {A} (inj : A → jsval) (x : option A) : jsval :=
  from_option inj VUndefined x.

(** JavaScript truthiness of a [string | undefined]: [undefined] and the
    empty string are falsy. *)
Definition truthy_string (x : option string) : bool :=
  match x with
  | None => false
  | Some s => negb (String.eqb s "")
  end.

(** The own enumerable properties of a run, as spread by [...run]. *)
Definition Run_fields (run : Run) : obj :=
  list_to_map [
    ("id", VString (id run));
    ("parent_run_id", of_opt VString (parent_run_id run));
    ("child_runs", VRuns (child_runs run));
    ("child_execution_order", VNumber (child_execution_order run));
    ("dotted_order", of_opt VString (dotted_order run));
    ("trace_id", of_opt VString (trace_id run));
    ("start_time", of_opt VNumber (start_time run));
    ("end_time", of_opt VNumber (end_time run));
    ("inputs", VMap (inputs run));
    ("outputs", of_opt VMap (outputs run));
    ("events", of_opt VEvents (events run));
    ("error", of_opt VString (error run));
    ("extra", of_opt VMap (extra run))
  ].

(** ** The ambient run tree

    A [RunTree] node of the langsmith package, with the fields this file
    reads ([id], [parent_run], [child_runs], [client]) and [parent_run_id],
    which a node has as a [BaseRun]. [parent_run] and [child_runs] hold
    references to other nodes. *)
Record RunTree : Type := mkRunTree {
  rt_id : string;
  rt_parent_run : option loc;
  rt_parent_run_id : option string;
  rt_child_runs : option (list loc);
  rt_client : option Client
}.

Abbreviation heap := (gmap loc RunTree).

(** ** Results *)

Inductive result (A : Type) : Type :=
| Ok (a : A)
| Err (e : Error).
Arguments Ok {A} a.
Arguments Err {A} e.

(** The outcome of a loop run with a bound on its iterations. [Dangling] is
    a reference to no object, which JavaScript cannot produce. *)
Inductive outcome (A : Type) : Type :=
| Done (a : A)
| OutOfFuel
| Dangling.
Arguments Done {A} a.
Arguments OutOfFuel {A}.
Arguments Dangling {A}.

Definition outcome_bind {A B} (m : outcome A) (k : A → outcome B) : outcome B :=
  match m with
  | Done a => k a
  | OutOfFuel => OutOfFuel
  | Dangling => Dangling
  end.

Definition deref (h : heap) (l : loc) : outcome RunTree :=
  match h !! l with
  | Some n => Done n
  | None => Dangling
  end.

(** ** The host: everything the tracer obtains from its collaborators *)

Inductive Request : Type :=
| CreateRun (c : Client) (payload : obj)
| UpdateRun (c : Client) (run_id : string) (payload : obj).

Record Host : Type := mkHost {
  (** [getEnvironmentVariable] *)
  env_vars : gmap string string;
  (** [getRuntimeEnvironment()] *)
  runtime_environment : json;
  (** the objects of the ambient run tree *)
  objects : heap;
  (** [getCurrentRunTree()]: throws, or returns a node or nothing *)
  current_run_tree : result (option loc);
  (** [new Client({})] *)
  new_client : Client;
  (** whether [client.createRun(payload)] rejects, given what was sent before *)
  createRun_rejects : list Request → Client → obj → option Error;
  (** whether [client.updateRun(id, payload)] rejects *)
  updateRun_rejects : list Request → Client → string → obj → option Error
}.

(** Modelled from the spec: [getEnvironmentVariable] of [../utils/env.js],
    a lookup of a named configuration key that falls back to unset. *)
Definition getEnvironmentVariable (host : Host) (name : string) : option string :=
  env_vars host !! name.

(** [a ?? b] *)
Definition nullish {A} (a : option A) (b : option A) : option A :=
  match a with
  | Some x => Some x
  | None => b
  end.

(** ** LangChainTracer *)

Record LangChainTracerFields : Type := mkFields {
  f_exampleId : option string;
  f_projectName : option string;
  f_client : option Client
}.

(** [runMap] holds references: [runMap.set(current.id, current)] stores the
    node itself. *)
Record LangChainTracer : Type := mkTracer {
  name : string;
  projectName : option string;
  exampleId : option string;
  client : Client;
  runMap : gmap string loc
}.

(** [getTraceableRunTree]: [try { return getCurrentRunTree() } catch { return undefined }] *)
Definition getTraceableRunTree (host : Host) : option loc :=
  match current_run_tree host with
  | Ok r => r
  | Err _ => None
  end.

(** The first loop of the constructor:
    [while (rootRun.parent_run) { if (visited.has(rootRun.id)) break;
       visited.add(rootRun.id); rootRun = rootRun.parent_run }]. *)
Fixpoint find_root (fuel : nat) (h : heap) (visited : gset string) (rootRun : loc)
  : outcome loc :=
  match fuel with
  | O => OutOfFuel
  | S fuel' =>
      outcome_bind (deref h rootRun) (λ node,
        match rt_parent_run node with
        | None => Done rootRun
        | Some parent =>
            if decide (rt_id node ∈ visited) then Done rootRun
            else find_root fuel' h ({[rt_id node]} ∪ visited) parent
        end)
  end.

(** The state of the second loop: the visited set, the run map, and the calls
    of [runMap.set] made so far, oldest first. *)
Record Flat : Type := mkFlat {
  fl_visited : gset string;
  fl_runMap : gmap string loc;
  fl_sets : list (string * loc)
}.

(** The second loop:
    [while (queue.length > 0) { const current = queue.shift();
       if (!current || visited.has(current.id)) continue;
       visited.add(current.id); this.runMap.set(current.id, current);
       if (current.child_runs) queue.push(...current.child_runs) }]. *)
Fixpoint flatten (fuel : nat) (h : heap) (st : Flat) (queue : list loc)
  : outcome Flat :=
  match fuel with
  | O => OutOfFuel
  | S fuel' =>
      match queue with
      | [] => Done st
      | current :: rest =>
          outcome_bind (deref h current) (λ node,
            if decide (rt_id node ∈ fl_visited st) then flatten fuel' h st rest
            else
              flatten fuel' h
                {| fl_visited := {[rt_id node]} ∪ fl_visited st;
                   fl_runMap := <[rt_id node := current]> (fl_runMap st);
                   fl_sets := fl_sets st ++ [(rt_id node, current)] |}
                (rest ++ default [] (rt_child_runs node)))
      end
  end.

(** Modelled from the spec: the constructor of [BaseTracer] ([./base.js])
    leaves the run map empty. *)
Definition BaseTracer_runMap : gmap string loc := ∅.

(** [constructor(fields: LangChainTracerFields = {})] *)
Definition LangChainTracer_new (fuel : nat) (host : Host)
    (fields : LangChainTracerFields) : outcome LangChainTracer :=
  let this :=
    {| name := "langchain_tracer";
       projectName :=
         nullish (f_projectName fields)
           (nullish (getEnvironmentVariable host "LANGCHAIN_PROJECT")
                    (getEnvironmentVariable host "LANGCHAIN_SESSION"));
       exampleId := f_exampleId fields;
       client := default (new_client host) (f_client fields);
       runMap := BaseTracer_runMap |} in
  match getTraceableRunTree host with
  | None => Done this
  | Some traceableTree =>
      outcome_bind (find_root fuel (objects host) ∅ traceableTree) (λ rootRun,
      outcome_bind
        (flatten fuel (objects host)
           {| fl_visited := ∅; fl_runMap := runMap this; fl_sets := [] |}
           [rootRun]) (λ st,
      outcome_bind (deref (objects host) traceableTree) (λ tree,
        Done {| name := name this;
                projectName := projectName this;
                exampleId := exampleId this;
                client := default (client this) (rt_client tree);
                runMap := fl_runMap st |})))
  end.

(** [getRun(id)] *)
Definition getRun (this : LangChainTracer) (run_id : string) : option loc :=
  runMap this !! run_id.

(** ** Asynchronous calls

    A computation takes the requests sent to the client so far and returns
    its result (a value, or the error it rejects with) and the requests sent
    by its end. *)
Definition Exec (A : Type) : Type := list Request → result A * list Request.

Definition exec_ret {A} (a : A) : Exec A := λ sent, (Ok a, sent).

Definition exec_bind {A B} (m : Exec A) (k : A → Exec B) : Exec B :=
  λ sent,
    match m sent with
    | (Ok a, sent') => k a sent'
    | (Err e, sent') => (Err e, sent')
    end.

Notation "'await' x ← m ; k" := (exec_bind m (λ x, k))
  (at level 20, x name, m at level 100, k at level 200, only parsing).

(** [await getRuntimeEnvironment()] *)
Definition getRuntimeEnvironment (host : Host) : Exec json :=
  exec_ret (runtime_environment host).

(** What a rejecting or resolving client call yields. *)
Definition settle (rejection : option Error) : result unit :=
  match rejection with
  | Some e => Err e
  | None => Ok tt
  end.

(** [await client.createRun(payload)] *)
Definition Client_createRun (host : Host) (c : Client) (payload : obj) : Exec unit :=
  λ sent,
    (settle (createRun_rejects host sent c payload), sent ++ [CreateRun c payload]).

(** [await client.updateRun(id, payload)] *)
Definition Client_updateRun (host : Host) (c : Client) (run_id : string)
    (payload : obj) : Exec unit :=
  λ sent,
    (settle (updateRun_rejects host sent c run_id payload),
     sent ++ [UpdateRun c run_id payload]).

(** [_convertToCreate(run, example_id)]: the literal's properties in source
    order, later ones overriding the spread ones. *)
Definition _convertToCreate (host : Host) (this : LangChainTracer) (run : Run)
    (example_id : option string) : Exec obj :=
  await runtime ← getRuntimeEnvironment host;
  exec_ret
    (<["reference_example_id" :=
         if truthy_string (parent_run_id run) then VUndefined
         else of_opt VString example_id]>
     (<["session_name" := of_opt VString (projectName this)]>
     (<["child_runs" := VUndefined]>
     (<["extra" := VMap (<["runtime" := runtime]> (default ∅ (extra run)))]>
     (Run_fields run))))).

(** [onRunCreate(run)] *)
Definition onRunCreate (host : Host) (this : LangChainTracer) (run : Run) : Exec unit :=
  await persistedRun ← _convertToCreate host this run (exampleId this);
  Client_createRun host (client this) persistedRun.

(** The object literal of [onRunUpdate]. *)
Definition runUpdate (run : Run) : obj :=
  list_to_map [
    ("end_time", of_opt VNumber (end_time run));
    ("error", of_opt VString (error run));
    ("outputs", of_opt VMap (outputs run));
    ("events", of_opt VEvents (events run));
    ("inputs", VMap (inputs run));
    ("trace_id", of_opt VString (trace_id run));
    ("dotted_order", of_opt VString (dotted_order run));
    ("parent_run_id", of_opt VString (parent_run_id run))
  ].

(** [onRunUpdate(run)] *)
Definition onRunUpdate (host : Host) (this : LangChainTracer) (run : Run) : Exec unit :=
  Client_updateRun host (client this) (id run) (runUpdate run).

(** ** RunnableTraceable *)

Section Traceable.
(** The collaborators of [invoke]: the runnable configuration, the callback
    manager derived from it, and the base class's option resolution. *)
Context {RunInput RunOutput Config Callbacks : Type}.
Variable _getOptionsList : option Config → Config.
Variable getCallbackManagerForConfig : Config → Callbacks.

(** A function value; [traceable_brand] is what langsmith's [traceable]
    wrapper leaves on the functions it returns. *)
Record AnyTraceableFunction : Type := mkFunction {
  traceable_brand : bool;
  fn_call : Config * Callbacks → RunInput → result RunOutput
}.

Definition isTraceableFunction (f : AnyTraceableFunction) : bool :=
  traceable_brand f.

Record RunnableTraceable : Type := mkRunnableTraceable {
  lc_serializable : bool;
  lc_namespace : list string;
  func : AnyTraceableFunction
}.

(** [constructor(fields: { func })] *)
Definition RunnableTraceable_new (fields_func : AnyTraceableFunction)
  : result RunnableTraceable :=
  if negb (isTraceableFunction fields_func) then
    Err (mkError
      "RunnableTraceable requires a function that is wrapped in traceable higher-order function")
  else
    Ok {| lc_serializable := false;
          lc_namespace := ["langchain_core"; "runnables"];
          func := fields_func |}.

(** [invoke(input, options)] *)
Definition invoke (this : RunnableTraceable) (input : RunInput)
    (options : option Config) : result RunOutput :=
  let config := _getOptionsList options in
  fn_call (func this) (config, getCallbackManagerForConfig config) input.

(** Constructing and then invoking, as a caller does. *)
Definition construct_and_invoke (f : AnyTraceableFunction) (input : RunInput)
    (options : option Config) : result RunOutput :=
  match RunnableTraceable_new f with
  | Ok runnable => invoke runnable input options
  | Err e => Err e
  end.
End Traceable.

(** ** Auxiliary definitions used by the statements below *)

(** The ids carried by the objects of a heap. *)
Definition heap_ids (h : heap) : gset string :=
  map_to_set (λ _ node, rt_id node) h.

(** The references a node holds. *)
Definition refs_of (node : RunTree) : list loc :=
  option_list (rt_parent_run node) ++ default [] (rt_child_runs node).

(** Every reference held by an object of the heap is to an object of the
    heap, as in any JavaScript heap. *)
Definition heap_closed (h : heap) : Prop :=
  map_Forall (λ _ node, Forall (λ r, is_Some (h !! r)) (refs_of node)) h.

#[global] Instance heap_closed_dec (h : heap) : Decision (heap_closed h) :=
  map_Forall_dec (λ _ node, Forall (λ r, is_Some (h !! r)) (refs_of node)) h.

(** What a node not yet visited can still add to the queue. *)
Definition weight (visited : gset string) (node : RunTree) : nat :=
  if decide (rt_id node ∈ visited) then 0
  else length (default [] (rt_child_runs node)).

Definition pending (h : heap) (visited : gset string) : nat :=
  sum_list_with (weight visited) (map_to_list h).*2.

(** Iterations that suffice for both loops of the constructor on a heap:
    one per distinct id going up, one per queued reference going down. *)
Definition walk_fuel (h : heap) : nat :=
  2 + size (heap_ids h) + pending h ∅.

(** The ambient tree is usable: the heap is closed and the node returned by
    the probe, if any, is an object of it. *)
Definition host_wf (host : Host) : Prop :=
  heap_closed (objects host)
  ∧ ∀ l, getTraceableRunTree host = Some l → is_Some (objects host !! l).

(** Replaying the calls of [runMap.set] on a run map. *)
Definition replay (rm : gmap string loc) (sets : list (string * loc)) : gmap string loc :=
  foldl (λ m call, <[call.1 := call.2]> m) rm sets.

(** What holds of the state of the second loop at every iteration, started
    from the run map [rm] with nothing visited. *)
Record flat_inv (h : heap) (rm : gmap string loc) (st : Flat) : Prop := mkFlatInv {
  inv_nodup : NoDup (fl_sets st).*1;
  inv_visited : ∀ i, i ∈ fl_visited st ↔ i ∈ (fl_sets st).*1;
  inv_nodes : ∀ i l, (i, l) ∈ fl_sets st → ∃ node, h !! l = Some node ∧ rt_id node = i;
  inv_runMap : fl_runMap st = replay rm (fl_sets st)
}.

(** The record [getRun] returns: the object its reference denotes. *)
Definition getRun_record (host : Host) (this : LangChainTracer) (run_id : string)
  : option RunTree :=
  getRun this run_id ≫= λ l, objects host !! l.

(** *** Concrete inputs *)

Definition empty_host : Host :=
  {| env_vars := ∅;
     runtime_environment := JObj [("library", JStr "langchain-js")];
     objects := ∅;
     current_run_tree := Err (mkError "no run tree");
     new_client := ClientRef 0;
     createRun_rejects := λ _ _ _, None;
     updateRun_rejects := λ _ _ _ _, None |}.

Definition example_tracer : LangChainTracer :=
  {| name := "langchain_tracer";
     projectName := Some "default";
     exampleId := Some "ex1";
     client := ClientRef 0;
     runMap := ∅ |}.

(** A run whose [parent_run_id] is the empty string. *)
Definition run_with_empty_parent : Run :=
  {| id := "r2"; parent_run_id := Some ""; child_runs := [];
     child_execution_order := 1; dotted_order := None; trace_id := None;
     start_time := None; end_time := None; inputs := ∅; outputs := None;
     events := None; error := None; extra := None |}.

Definition root_run : Run :=
  {| id := "r1"; parent_run_id := None; child_runs := [];
     child_execution_order := 1; dotted_order := Some "d1"; trace_id := Some "r1";
     start_time := Some 5%Z; end_time := None; inputs := ∅; outputs := None;
     events := None; error := None; extra := None |}.

Definition child_run : Run :=
  {| id := "r2"; parent_run_id := Some "r1"; child_runs := [];
     child_execution_order := 1; dotted_order := Some "d1.d2"; trace_id := Some "r1";
     start_time := Some 10%Z; end_time := Some 20%Z; inputs := ∅; outputs := None;
     events := None; error := None; extra := None |}.

(** A chain A → B → C as langsmith's [createChild] builds it: linked by
    [parent_run] and [child_runs], with no [parent_run_id] on the nodes. The
    middle node carries a client. *)
Definition node_A : RunTree :=
  {| rt_id := "A"; rt_parent_run := None; rt_parent_run_id := None;
     rt_child_runs := Some [1]; rt_client := None |}.
Definition node_B : RunTree :=
  {| rt_id := "B"; rt_parent_run := Some 0; rt_parent_run_id := None;
     rt_child_runs := Some [2]; rt_client := Some (ClientRef 7) |}.
Definition node_C : RunTree :=
  {| rt_id := "C"; rt_parent_run := Some 1; rt_parent_run_id := None;
     rt_child_runs := Some []; rt_client := None |}.

Definition chain_heap : heap := <[0 := node_A]> (<[1 := node_B]> (<[2 := node_C]> ∅)).

Definition chain_host (probe : loc) : Host :=
  {| env_vars := ∅;
     runtime_environment := JNull;
     objects := chain_heap;
     current_run_tree := Ok (Some probe);
     new_client := ClientRef 0;
     createRun_rejects := λ _ _ _, None;
     updateRun_rejects := λ _ _ _ _, None |}.

(** A malformed tree: B's parent is C, and C's children contain B. *)
Definition cyc_B : RunTree :=
  {| rt_id := "B"; rt_parent_run := Some 2; rt_parent_run_id := None;
     rt_child_runs := Some [2]; rt_client := None |}.
Definition cyc_C : RunTree :=
  {| rt_id := "C"; rt_parent_run := Some 1; rt_parent_run_id := None;
     rt_child_runs := Some [1]; rt_client := None |}.

Definition cyclic_heap : heap := <[1 := cyc_B]> (<[2 := cyc_C]> ∅).

Definition cyclic_host : Host :=
  {| env_vars := ∅;
     runtime_environment := JNull;
     objects := cyclic_heap;
     current_run_tree := Ok (Some 1);
     new_client := ClientRef 0;
     createRun_rejects := λ _ _ _, None;
     updateRun_rejects := λ _ _ _ _, None |}.

(** The state in which the second loop starts. *)
Definition flat_init : Flat :=
  {| fl_visited := ∅; fl_runMap := BaseTracer_runMap; fl_sets := [] |}.

Definition no_fields : LangChainTracerFields :=
  {| f_exampleId := None; f_projectName := None; f_client := None |}.

Definition fields_with_client : LangChainTracerFields :=
  {| f_exampleId := None; f_projectName := None; f_client := Some (ClientRef 3) |}.

(** A function that was not wrapped by [traceable], and one that was. *)
Definition plain_function : @AnyTraceableFunction string string unit unit :=
  {| traceable_brand := false; fn_call := λ _ input, Ok input |}.

Definition traced_function : @AnyTraceableFunction string string unit unit :=
  {| traceable_brand := true; fn_call := λ _ input, Ok input |}.

(** *** Claims read literally *)

(** Root linkage by presence: a record whose [parent_run_id] is present never
    carries the example id. *)
Definition root_linkage_by_presence : Prop :=
  ∀ host this run e sent payload,
    _convertToCreate host this run (Some e) sent = (Ok payload, sent) →
    (field payload "reference_example_id" = VString e ↔ parent_run_id run = None)
    ∧ (parent_run_id run ≠ None → field payload "reference_example_id" = VUndefined).

(** The three nodes at [a], [b], [c] form the chain A → B → C. *)
Definition is_chain (h : heap) (a b c : loc) (A B C : RunTree) : Prop :=
  h !! a = Some A ∧ h !! b = Some B ∧ h !! c = Some C
  ∧ rt_parent_run A = None ∧ rt_child_runs A = Some [b]
  ∧ rt_parent_run B = Some a ∧ rt_child_runs B = Some [c]
  ∧ rt_parent_run C = Some b ∧ default [] (rt_child_runs C) = []
  ∧ rt_id A ≠ rt_id B ∧ rt_id B ≠ rt_id C ∧ rt_id A ≠ rt_id C.

(** Hydrating a chain yields a record for B whose [parent_run_id] is A's id. *)
Definition hydrated_parent_run_id : Prop :=
  ∀ fuel host fields a b c A B C start,
    is_chain (objects host) a b c A B C →
    current_run_tree host = Ok (Some start) →
    start ∈ [a; b; c] →
    4 ≤ fuel →
    ∃ this record,
      LangChainTracer_new fuel host fields = Done this
      ∧ getRun_record host this (rt_id B) = Some record
      ∧ rt_parent_run_id record = Some (rt_id A).

(** ** Further operations and relations *)

(** [persistRun(_run)]: the empty extension point. *)
Definition persistRun (host : Host) (this : LangChainTracer) (_run : Run) : Exec unit :=
  exec_ret tt.

(** Following [parent_run] from [l] reaches [top], passing nodes whose ids
    are [ids], oldest first; [top] itself is not counted. *)
Inductive climbs (h : heap) : loc → list string → loc → Prop :=
| climbs_here l : climbs h l [] l
| climbs_up l node parent ids top :
    h !! l = Some node →
    rt_parent_run node = Some parent →
    climbs h parent ids top →
    climbs h l (rt_id node :: ids) top.

(** [c] is one of the [child_runs] of the node at [l]. *)
Definition child_step (h : heap) (l c : loc) : Prop :=
  ∃ node, h !! l = Some node ∧ c ∈ default [] (rt_child_runs node).

(** [l] is reached from [root] through [child_runs]. *)
Definition descends (h : heap) (root l : loc) : Prop := rtc (child_step h) root l.

(** No two objects of the heap carry the same id. *)
Definition ids_unique (h : heap) : Prop :=
  map_Forall (λ l1 node1,
    map_Forall (λ l2 node2, rt_id node1 = rt_id node2 → l1 = l2) h) h.

#[global] Instance ids_unique_dec (h : heap) : Decision (ids_unique h) :=
  map_Forall_dec (λ l1 node1,
    map_Forall (λ l2 node2, rt_id node1 = rt_id node2 → l1 = l2) h) h.

(** What the second loop keeps about the children of the nodes it has set:
    each is still queued or has its id visited. *)
Definition children_covered (h : heap) (st : Flat) (queue : list loc) : Prop :=
  ∀ i l node c,
    (i, l) ∈ fl_sets st → h !! l = Some node →
    c ∈ default [] (rt_child_runs node) →
    c ∈ queue ∨ ∃ child, h !! c = Some child ∧ rt_id child ∈ fl_visited st.

(** The project name as the constructor resolves it. *)
Definition resolved_projectName (host : Host) (fields : LangChainTracerFields)
  : option string :=
  match f_projectName fields with
  | Some p => Some p
  | None =>
      match env_vars host !! "LANGCHAIN_PROJECT" with
      | Some p => Some p
      | None => env_vars host !! "LANGCHAIN_SESSION"
      end
  end.

(** *** Further concrete inputs *)

(** A tree with two branches and two objects that share the id ["X"]:
    0 is the root with children 1 and 2; 1 has child 3; 2 has child 4. *)
Definition fork_heap : heap :=
  <[0 := {| rt_id := "R"; rt_parent_run := None; rt_parent_run_id := None;
            rt_child_runs := Some [1; 2]; rt_client := None |}]>
  (<[1 := {| rt_id := "X"; rt_parent_run := Some 0; rt_parent_run_id := None;
             rt_child_runs := Some [3]; rt_client := None |}]>
  (<[2 := {| rt_id := "X"; rt_parent_run := Some 0; rt_parent_run_id := None;
             rt_child_runs := Some [4]; rt_client := None |}]>
  (<[3 := {| rt_id := "Y"; rt_parent_run := Some 1; rt_parent_run_id := None;
             rt_child_runs := None; rt_client := None |}]>
  (<[4 := {| rt_id := "Z"; rt_parent_run := Some 2; rt_parent_run_id := None;
             rt_child_runs := None; rt_client := None |}]> ∅)))).

Definition fork_host (probe : loc) : Host :=
  {| env_vars := {["LANGCHAIN_PROJECT" := "from-project"; "LANGCHAIN_SESSION" := "from-session"]};
     runtime_environment := JNull;
     objects := fork_heap;
     current_run_tree := Ok (Some probe);
     new_client := ClientRef 0;
     createRun_rejects := λ _ _ _, None;
     updateRun_rejects := λ _ _ _ _, None |}.

Definition fields_with_project : LangChainTracerFields :=
  {| f_exampleId := Some "ex1"; f_projectName := Some ""; f_client := None |}.

(** A traced function that fails. *)
Definition failing_function : @AnyTraceableFunction string string unit unit :=
  {| traceable_brand := true; fn_call := λ _ _, Err (mkError "boom") |}.

(** * Properties *)

(** ** Payloads *)

Lemma truthy_string_false (x : option string) :
  truthy_string x = false ↔ x = None ∨ x = Some "".
Proof.
  destruct x as [s|]; simpl.
  - rewrite negb_false_iff, String.eqb_eq. split.
    + intros ->. by right.
    + intros [?|?]; congruence.
  - split; [by left | done].
Qed.

Lemma truthy_string_true (x : option string) :
  truthy_string x = true ↔ ∃ s, x = Some s ∧ s ≠ "".
Proof.
  destruct x as [s|]; simpl.
  - rewrite negb_true_iff, String.eqb_neq. split.
    + intros ?. by exists s.
    + intros (s' & [= ->] & ?). done.
  - split; [done | by intros (? & ? & ?)].
Qed.

(** [_convertToCreate] sends nothing and does not reject. *)
Lemma _convertToCreate_pure host this run example_id sent :
  ∃ payload, _convertToCreate host this run example_id sent = (Ok payload, sent).
Proof. eexists. reflexivity. Qed.

(** The [reference_example_id] of the payload is decided by the truthiness of
    [run.parent_run_id]. *)
Lemma reference_example_id_spec host this run example_id sent payload :
  _convertToCreate host this run example_id sent = (Ok payload, sent) →
  field payload "reference_example_id" =
    if truthy_string (parent_run_id run) then VUndefined
    else of_opt VString example_id.
Proof.
  intros [= <-]. unfold field. by rewrite lookup_insert_eq.
Qed.

(** C1, as stated, fails: with [parent_run_id] present but empty the payload
    carries the example id. *)
Lemma C1_parent_present_still_linked : ¬ root_linkage_by_presence.
Proof.
  intros claim.
  destruct (claim empty_host example_tracer run_with_empty_parent "ex1" []
              _ eq_refl) as [_ absent].
  specialize (absent ltac:(done)).
  vm_compute in absent. discriminate absent.
Qed.

(** C1 (amended): the payload that [onRunCreate] sends carries the configured
    example id exactly when the record's [parent_run_id] is absent or the
    empty string; with a non-empty [parent_run_id] its [reference_example_id]
    is absent, whatever example id is configured. *)
Theorem C1_reference_example_id_only_on_root host this run e sent :
  exampleId this = Some e →
  ∃ payload,
    _convertToCreate host this run (exampleId this) sent = (Ok payload, sent)
    ∧ (onRunCreate host this run sent).2 = sent ++ [CreateRun (client this) payload]
    ∧ (field payload "reference_example_id" = VString e
       ↔ parent_run_id run = None ∨ parent_run_id run = Some "")
    ∧ (∀ parent, parent_run_id run = Some parent → parent ≠ "" →
         field payload "reference_example_id" = VUndefined).
Proof.
  intros He.
  destruct (_convertToCreate_pure host this run (exampleId this) sent) as [payload Hp].
  exists payload. split; [done|]. split.
  { unfold onRunCreate, exec_bind. rewrite Hp. reflexivity. }
  rewrite (reference_example_id_spec _ _ _ _ _ _ Hp), He. simpl.
  rewrite <- truthy_string_false. split.
  - destruct (truthy_string (parent_run_id run)); split; (done || congruence).
  - intros parent Hparent Hne.
    assert (truthy_string (parent_run_id run) = true) as ->; [|done].
    apply truthy_string_true. by exists parent.
Qed.

Lemma C1_reference_example_id_only_on_root_witness :
  exampleId example_tracer = Some "ex1"
  ∧ ∃ payload,
      _convertToCreate empty_host example_tracer child_run
        (exampleId example_tracer) [] = (Ok payload, [])
      ∧ (onRunCreate empty_host example_tracer child_run []).2
        = [] ++ [CreateRun (client example_tracer) payload]
      ∧ (field payload "reference_example_id" = VString "ex1"
         ↔ parent_run_id child_run = None ∨ parent_run_id child_run = Some "")
      ∧ (∀ parent, parent_run_id child_run = Some parent → parent ≠ "" →
           field payload "reference_example_id" = VUndefined).
Proof.
  split; [reflexivity|].
  apply (C1_reference_example_id_only_on_root empty_host example_tracer child_run "ex1" []).
  reflexivity.
Defined.

(** The keys [_convertToCreate] writes after the spread. *)
Lemma _convertToCreate_other_keys host this run example_id sent payload k :
  _convertToCreate host this run example_id sent = (Ok payload, sent) →
  k ∉ ["extra"; "child_runs"; "session_name"; "reference_example_id"] →
  payload !! k = Run_fields run !! k.
Proof.
  intros [= <-] Hk.
  rewrite !not_elem_of_cons in Hk. destruct Hk as (? & ? & ? & ? & _).
  by rewrite !lookup_insert_ne.
Qed.

(** C2: the creation payload has every own field of the record unchanged,
    except that [child_runs] is omitted and [extra] is the record's [extra]
    with the [runtime] entry of the runtime introspection merged in;
    [session_name] is the tracer's project name. *)
Theorem C2_create_payload_fields host this run example_id sent :
  ∃ payload,
    _convertToCreate host this run example_id sent = (Ok payload, sent)
    ∧ (∀ k, k ∉ ["extra"; "child_runs"; "session_name"; "reference_example_id"] →
         payload !! k = Run_fields run !! k)
    ∧ (∀ k, k ∈ dom (Run_fields run) → k ≠ "extra" → k ≠ "child_runs" →
         payload !! k = Run_fields run !! k)
    ∧ field payload "child_runs" = VUndefined
    ∧ (∃ merged,
         field payload "extra" = VMap merged
         ∧ merged !! "runtime" = Some (runtime_environment host)
         ∧ ∀ k, k ≠ "runtime" → merged !! k = default ∅ (extra run) !! k)
    ∧ field payload "session_name" = of_opt VString (projectName this).
Proof.
  destruct (_convertToCreate_pure host this run example_id sent) as [payload Hp].
  exists payload. split; [done|].
  split; [intros k; apply (_convertToCreate_other_keys _ _ _ _ _ _ _ Hp)|].
  split.
  { intros k Hdom ? ?. apply (_convertToCreate_other_keys _ _ _ _ _ _ _ Hp).
    unfold Run_fields in Hdom. rewrite dom_list_to_map_L in Hdom. simpl in Hdom.
    rewrite !not_elem_of_cons. repeat split; try done.
    - intros ->. set_solver.
    - intros ->. set_solver.
    - apply not_elem_of_nil. }
  injection Hp as <-. unfold field.
  split; [by rewrite lookup_insert_ne, lookup_insert_ne, lookup_insert_eq|].
  split.
  { eexists. split.
    - by rewrite lookup_insert_ne, lookup_insert_ne, lookup_insert_ne, lookup_insert_eq.
    - split; [by rewrite lookup_insert_eq|].
      intros k ?. by rewrite lookup_insert_ne. }
  by rewrite lookup_insert_ne, lookup_insert_eq.
Qed.

(** C3: the update payload sent by [onRunUpdate] has exactly the properties
    [end_time], [error], [outputs], [events], [inputs], [trace_id],
    [dotted_order] and [parent_run_id], each holding the record's value; it
    has no [session_name], [child_runs] or [reference_example_id]. *)
Theorem C3_update_payload_fields host this run sent :
  ∃ payload,
    (onRunUpdate host this run sent).2
      = sent ++ [UpdateRun (client this) (id run) payload]
    ∧ dom payload = list_to_set ["end_time"; "error"; "outputs"; "events"; "inputs";
                                 "trace_id"; "dotted_order"; "parent_run_id"]
    ∧ payload !! "end_time" = Some (of_opt VNumber (end_time run))
    ∧ payload !! "error" = Some (of_opt VString (error run))
    ∧ payload !! "outputs" = Some (of_opt VMap (outputs run))
    ∧ payload !! "events" = Some (of_opt VEvents (events run))
    ∧ payload !! "inputs" = Some (VMap (inputs run))
    ∧ payload !! "trace_id" = Some (of_opt VString (trace_id run))
    ∧ payload !! "dotted_order" = Some (of_opt VString (dotted_order run))
    ∧ payload !! "parent_run_id" = Some (of_opt VString (parent_run_id run))
    ∧ payload !! "session_name" = None
    ∧ payload !! "child_runs" = None
    ∧ payload !! "reference_example_id" = None.
Proof.
  exists (runUpdate run). split; [reflexivity|].
  split; [unfold runUpdate; by rewrite dom_list_to_map_L|].
  repeat split; reflexivity.
Qed.

(** ** Failures of the persistence client *)

(** C9: [onRunCreate] and [onRunUpdate] each send one request to the tracer's
    client and settle as that request does: they reject exactly when it
    rejects, with the client's own error, and otherwise resolve. *)
Theorem C9_client_failure_propagates host this run sent :
  (∃ payload,
     _convertToCreate host this run (exampleId this) sent = (Ok payload, sent)
     ∧ onRunCreate host this run sent =
         (settle (createRun_rejects host sent (client this) payload),
          sent ++ [CreateRun (client this) payload])
     ∧ ∀ e, (onRunCreate host this run sent).1 = Err e
            ↔ createRun_rejects host sent (client this) payload = Some e)
  ∧ onRunUpdate host this run sent =
      (settle (updateRun_rejects host sent (client this) (id run) (runUpdate run)),
       sent ++ [UpdateRun (client this) (id run) (runUpdate run)])
  ∧ ∀ e, (onRunUpdate host this run sent).1 = Err e
         ↔ updateRun_rejects host sent (client this) (id run) (runUpdate run) = Some e.
Proof.
  split; [|split].
  - eexists. split; [reflexivity|]. split; [reflexivity|].
    intros e. unfold onRunCreate, exec_bind, Client_createRun. simpl.
    destruct (createRun_rejects _ _ _ _); simpl; split; congruence.
  - reflexivity.
  - intros e. unfold onRunUpdate, Client_updateRun. simpl.
    destruct (updateRun_rejects _ _ _ _ _); simpl; split; congruence.
Qed.

(** ** RunnableTraceable *)

(** C8: constructing a [RunnableTraceable] from a function that fails
    [isTraceableFunction] yields the configuration error and no instance, so
    nothing can invoke it; from a function that passes, construction yields
    an instance that stores the function. *)
Theorem C8_untraceable_function_rejected
    {RunInput RunOutput Config Callbacks : Type}
    (f : @AnyTraceableFunction RunInput RunOutput Config Callbacks) :
  (isTraceableFunction f = false →
     RunnableTraceable_new f =
       Err (mkError
         "RunnableTraceable requires a function that is wrapped in traceable higher-order function")
     ∧ ∀ getOptions getCallbacks input options,
         construct_and_invoke getOptions getCallbacks f input options =
           Err (mkError
             "RunnableTraceable requires a function that is wrapped in traceable higher-order function"))
  ∧ (isTraceableFunction f = true →
     ∃ runnable, RunnableTraceable_new f = Ok runnable ∧ func runnable = f).
Proof.
  split.
  - intros Hno. unfold construct_and_invoke, RunnableTraceable_new.
    rewrite Hno. simpl. done.
  - intros Hyes. unfold RunnableTraceable_new. rewrite Hyes. simpl. eauto.
Qed.

Lemma C8_untraceable_function_rejected_witness :
  isTraceableFunction plain_function = false
  ∧ RunnableTraceable_new plain_function =
      Err (mkError
        "RunnableTraceable requires a function that is wrapped in traceable higher-order function")
  ∧ ∀ getOptions getCallbacks input options,
      construct_and_invoke getOptions getCallbacks plain_function input options =
        Err (mkError
          "RunnableTraceable requires a function that is wrapped in traceable higher-order function").
Proof.
  split; [reflexivity|].
  apply (proj1 (C8_untraceable_function_rejected plain_function)).
  reflexivity.
Defined.

(** A traced function is stored and invoked with the resolved configuration. *)
Example traced_function_invoked :
  construct_and_invoke (λ _, tt) (λ _, tt) traced_function "input" None = Ok "input".
Proof. reflexivity. Qed.

(** A root run and then its child are created with an example id
    configured, and the child is updated: two create requests and one update
    request are sent, and only the root's payload carries the example id. *)
Example create_create_update :
  ∃ root_payload child_payload,
    (exec_bind (onRunCreate empty_host example_tracer root_run) (λ _,
     exec_bind (onRunCreate empty_host example_tracer child_run) (λ _,
     onRunUpdate empty_host example_tracer child_run))) []
    = (Ok tt, [CreateRun (ClientRef 0) root_payload;
               CreateRun (ClientRef 0) child_payload;
               UpdateRun (ClientRef 0) "r2" (runUpdate child_run)])
    ∧ field root_payload "reference_example_id" = VString "ex1"
    ∧ field child_payload "reference_example_id" = VUndefined.
Proof. do 2 eexists. split; [reflexivity|]. split; reflexivity. Qed.

(** ** Construction without an ambient tree *)

(** C6: when the probe throws or returns nothing, construction succeeds with
    an empty run map, so [getRun] finds nothing. *)
Theorem C6_probe_failure_swallowed fuel host fields :
  (∃ e, current_run_tree host = Err e) ∨ current_run_tree host = Ok None →
  ∃ this,
    LangChainTracer_new fuel host fields = Done this
    ∧ runMap this = ∅
    ∧ ∀ run_id, getRun this run_id = None.
Proof.
  intros Hprobe.
  assert (getTraceableRunTree host = None) as Hnone.
  { unfold getTraceableRunTree. by destruct Hprobe as [[e ->] | ->]. }
  unfold LangChainTracer_new. rewrite Hnone.
  eexists. split; [reflexivity|]. split; [reflexivity|].
  intros run_id. apply lookup_empty.
Qed.

Lemma C6_probe_failure_swallowed_witness :
  ((∃ e, current_run_tree empty_host = Err e) ∨ current_run_tree empty_host = Ok None)
  ∧ ∃ this,
      LangChainTracer_new 0 empty_host no_fields = Done this
      ∧ runMap this = ∅
      ∧ ∀ run_id, getRun this run_id = None.
Proof.
  assert ((∃ e, current_run_tree empty_host = Err e)
          ∨ current_run_tree empty_host = Ok None) as Hprobe.
  { left. eexists. reflexivity. }
  split; [exact Hprobe|].
  exact (C6_probe_failure_swallowed 0 empty_host no_fields Hprobe).
Defined.

(** ** The walks over the ambient tree *)

Lemma heap_ids_elem (h : heap) l node :
  h !! l = Some node → rt_id node ∈ heap_ids h.
Proof.
  intros Hl. unfold heap_ids. apply elem_of_map_to_set. by exists l, node.
Qed.

Lemma heap_closed_parent (h : heap) l node parent :
  heap_closed h → h !! l = Some node → rt_parent_run node = Some parent →
  is_Some (h !! parent).
Proof.
  intros Hc Hl Hp. specialize (Hc l node Hl). simpl in Hc.
  rewrite Forall_forall in Hc. apply Hc.
  unfold refs_of. rewrite Hp. simpl. apply list_elem_of_here.
Qed.

Lemma heap_closed_children (h : heap) l node :
  heap_closed h → h !! l = Some node →
  Forall (λ r, is_Some (h !! r)) (default [] (rt_child_runs node)).
Proof.
  intros Hc Hl. specialize (Hc l node Hl). simpl in Hc.
  unfold refs_of in Hc. by apply Forall_app in Hc as [_ ?].
Qed.

(** The upward walk ends within one iteration per id not yet visited, plus
    one, whatever the parent links are. *)
Lemma find_root_terminates (h : heap) :
  heap_closed h →
  ∀ fuel visited l,
    is_Some (h !! l) →
    size (heap_ids h ∖ visited) < fuel →
    ∃ root, find_root fuel h visited l = Done root ∧ is_Some (h !! root).
Proof.
  intros Hc. induction fuel as [|fuel IH]; intros visited l [node Hl] Hfuel; [lia|].
  simpl. unfold deref. rewrite Hl. simpl.
  destruct (rt_parent_run node) as [parent|] eqn:Hp; [|by eauto].
  case_decide as Hin; [by eauto|].
  apply IH.
  - by eapply heap_closed_parent.
  - pose proof (heap_ids_elem h l node Hl) as Hid.
    assert (heap_ids h ∖ ({[rt_id node]} ∪ visited) ⊂ heap_ids h ∖ visited) as Hsub.
    { apply strict_spec_alt. split; [set_solver|].
      intros Heq. assert (rt_id node ∈ heap_ids h ∖ visited) as Hx by set_solver.
      rewrite <- Heq in Hx. set_solver. }
    apply subset_size in Hsub. lia.
Qed.

(** More fuel does not change what a walk that ended returns. *)
Lemma find_root_fuel_mono (h : heap) fuel fuel' visited l root :
  find_root fuel h visited l = Done root → fuel ≤ fuel' →
  find_root fuel' h visited l = Done root.
Proof.
  revert fuel' visited l.
  induction fuel as [|fuel IH]; intros fuel' visited l Hdone Hle; [done|].
  destruct fuel' as [|fuel']; [lia|]. simpl in *.
  destruct (deref h l) as [node| |]; simpl in *; try done.
  destruct (rt_parent_run node); [|done].
  case_decide; [done|]. apply IH; [done|lia].
Qed.

Lemma weight_mono visited visited' node :
  visited ⊆ visited' → weight visited' node ≤ weight visited node.
Proof.
  intros Hsub. unfold weight. repeat case_decide; (lia || set_solver).
Qed.

Lemma sum_weight_mono visited visited' (nodes : list RunTree) :
  visited ⊆ visited' →
  sum_list_with (weight visited') nodes ≤ sum_list_with (weight visited) nodes.
Proof.
  intros Hsub. induction nodes as [|x nodes IH]; cbn [sum_list_with]; [lia|].
  pose proof (weight_mono visited visited' x Hsub). lia.
Qed.

Lemma sum_weight_visit visited (nodes : list RunTree) node :
  node ∈ nodes →
  sum_list_with (weight ({[rt_id node]} ∪ visited)) nodes + weight visited node
  ≤ sum_list_with (weight visited) nodes.
Proof.
  induction 1 as [node nodes | node x nodes Hin IH]; cbn [sum_list_with].
  - assert (weight ({[rt_id node]} ∪ visited) node = 0) as ->.
    { unfold weight. case_decide; [done|set_solver]. }
    pose proof (sum_weight_mono visited ({[rt_id node]} ∪ visited) nodes
                  ltac:(set_solver)). lia.
  - pose proof (weight_mono visited ({[rt_id node]} ∪ visited) x ltac:(set_solver)).
    lia.
Qed.

(** Visiting a node removes its children from what is still pending. *)
Lemma pending_visit (h : heap) visited l node :
  h !! l = Some node → rt_id node ∉ visited →
  pending h ({[rt_id node]} ∪ visited) + length (default [] (rt_child_runs node))
  ≤ pending h visited.
Proof.
  intros Hl Hnew. unfold pending.
  assert (node ∈ (map_to_list h).*2) as Hin.
  { apply list_elem_of_fmap. exists (l, node). split; [done|].
    by apply elem_of_map_to_list. }
  pose proof (sum_weight_visit visited _ node Hin) as Hsum.
  unfold weight at 2 in Hsum. by rewrite decide_False in Hsum.
Qed.

(** The downward walk ends within one iteration per queued reference,
    counting those that unvisited nodes can still add. *)
Lemma flatten_terminates (h : heap) :
  heap_closed h →
  ∀ fuel st queue,
    Forall (λ l, is_Some (h !! l)) queue →
    length queue + pending h (fl_visited st) < fuel →
    ∃ st', flatten fuel h st queue = Done st'.
Proof.
  intros Hc. induction fuel as [|fuel IH]; intros st queue Hq Hfuel; [lia|].
  destruct queue as [|current rest]; simpl; [by eauto|].
  apply Forall_cons in Hq as [[node Hl] Hrest].
  unfold deref. rewrite Hl. simpl in *.
  case_decide as Hin.
  - apply IH; [done|lia].
  - apply IH; simpl.
    + apply Forall_app. split; [done|]. by eapply heap_closed_children.
    + pose proof (pending_visit h (fl_visited st) current node Hl Hin).
      rewrite length_app. lia.
Qed.

Lemma flatten_fuel_mono (h : heap) fuel fuel' st queue st' :
  flatten fuel h st queue = Done st' → fuel ≤ fuel' →
  flatten fuel' h st queue = Done st'.
Proof.
  revert fuel' st queue.
  induction fuel as [|fuel IH]; intros fuel' st queue Hdone Hle; [done|].
  destruct fuel' as [|fuel']; [lia|]. simpl in *.
  destruct queue as [|current rest]; [done|].
  destruct (deref h current) as [node| |]; simpl in *; try done.
  case_decide; (apply IH; [done|lia]).
Qed.

Lemma replay_snoc rm sets i l :
  replay rm (sets ++ [(i, l)]) = <[i := l]> (replay rm sets).
Proof. unfold replay. by rewrite foldl_app. Qed.

Lemma replay_lookup_other rm sets i :
  i ∉ sets.*1 → replay rm sets !! i = rm !! i.
Proof.
  induction sets as [|[j l] sets IH] using rev_ind; [done|].
  rewrite fmap_app, not_elem_of_app. simpl. rewrite not_elem_of_cons.
  intros [Hsets [Hne _]]. rewrite replay_snoc, lookup_insert_ne; auto.
Qed.

Lemma replay_lookup rm sets i l :
  NoDup sets.*1 → (i, l) ∈ sets → replay rm sets !! i = Some l.
Proof.
  induction sets as [|[j k] sets IH] using rev_ind; [by intros _ ?%elem_of_nil|].
  rewrite fmap_app. simpl. intros [Hnd [Hfresh _]]%NoDup_app.
  rewrite elem_of_app, list_elem_of_singleton, replay_snoc.
  intros [Hin | [= -> ->]].
  - rewrite lookup_insert_ne; [by apply IH|].
    intros ->. apply (Hfresh i); [|apply list_elem_of_here].
    apply list_elem_of_fmap. by exists (i, l).
  - apply lookup_insert_eq.
Qed.

(** One iteration of the second loop keeps the invariant. *)
Lemma flat_inv_visit (h : heap) rm st current node :
  flat_inv h rm st → h !! current = Some node → rt_id node ∉ fl_visited st →
  flat_inv h rm
    {| fl_visited := {[rt_id node]} ∪ fl_visited st;
       fl_runMap := <[rt_id node := current]> (fl_runMap st);
       fl_sets := fl_sets st ++ [(rt_id node, current)] |}.
Proof.
  intros [Hnd Hvis Hnodes Hmap] Hl Hnew. split; simpl.
  - rewrite fmap_app. apply NoDup_app. split; [done|]. split.
    + intros i Hi. simpl. rewrite list_elem_of_singleton. intros ->.
      by apply Hnew, Hvis.
    + simpl. apply NoDup_singleton.
  - intros i. rewrite fmap_app, elem_of_app, elem_of_union, elem_of_singleton.
    simpl. rewrite list_elem_of_singleton, Hvis. tauto.
  - intros i l. rewrite elem_of_app, list_elem_of_singleton.
    intros [Hin | [= -> ->]]; [by apply Hnodes | by exists node].
  - by rewrite replay_snoc, Hmap.
Qed.

Lemma flatten_inv (h : heap) rm :
  ∀ fuel st queue st',
    flatten fuel h st queue = Done st' → flat_inv h rm st → flat_inv h rm st'.
Proof.
  induction fuel as [|fuel IH]; intros st queue st' Hdone Hinv; [done|].
  simpl in Hdone. destruct queue as [|current rest]; [by injection Hdone as <-|].
  unfold deref in Hdone. destruct (h !! current) as [node|] eqn:Hl; [|done].
  simpl in Hdone. case_decide as Hin.
  - by eapply IH.
  - eapply IH; [done|]. by apply flat_inv_visit.
Qed.

Lemma flat_inv_init (h : heap) rm :
  flat_inv h rm {| fl_visited := ∅; fl_runMap := rm; fl_sets := [] |}.
Proof.
  split; simpl; [apply NoDup_nil_2 | | by intros ? ? ?%elem_of_nil | done].
  intros i. split; [by intros ?%not_elem_of_empty | by intros ?%elem_of_nil].
Qed.

(** A node is set at most once, since ids are. *)
Lemma flat_inv_nodup_nodes (h : heap) rm st :
  flat_inv h rm st → NoDup (fl_sets st).*2.
Proof.
  intros [Hnd _ Hnodes _]. revert Hnd Hnodes.
  generalize (fl_sets st) as sets.
  induction sets as [|[i l] sets IH]; simpl; intros Hnd Hnodes; [apply NoDup_nil_2|].
  apply NoDup_cons in Hnd as [Hfresh Hnd]. apply NoDup_cons. split.
  - intros ([j l'] & Heq & Hin)%list_elem_of_fmap. simpl in Heq. subst l'.
    apply Hfresh. apply list_elem_of_fmap. exists (j, l). split; [|done]. simpl.
    destruct (Hnodes i l ltac:(apply list_elem_of_here)) as (n1 & Hl1 & <-).
    destruct (Hnodes j l ltac:(by apply list_elem_of_further)) as (n2 & Hl2 & <-).
    congruence.
  - apply IH; [done|]. intros j l' Hin. apply Hnodes. by apply list_elem_of_further.
Qed.

(** No more nodes are set than the heap has ids. *)
Lemma flat_inv_bounded (h : heap) rm st :
  flat_inv h rm st → length (fl_sets st) ≤ size (heap_ids h).
Proof.
  intros [Hnd _ Hnodes _].
  rewrite <- (length_fmap fst), <- (size_list_to_set (C := gset string)) by done.
  apply subseteq_size. intros i ([j l] & -> & Hin)%elem_of_list_to_set%list_elem_of_fmap.
  destruct (Hnodes j l Hin) as (node & Hl & <-). by eapply heap_ids_elem.
Qed.

(** ** Construction inside an ambient tree *)

(** With an ambient tree, construction runs both walks to their end and
    then settles the client. *)
Lemma LangChainTracer_new_with_tree fuel host fields start :
  host_wf host →
  getTraceableRunTree host = Some start →
  walk_fuel (objects host) ≤ fuel →
  ∃ root st tree this,
    find_root fuel (objects host) ∅ start = Done root
    ∧ flatten fuel (objects host) flat_init [root] = Done st
    ∧ objects host !! start = Some tree
    ∧ LangChainTracer_new fuel host fields = Done this
    ∧ runMap this = fl_runMap st
    ∧ client this = default (default (new_client host) (f_client fields)) (rt_client tree).
Proof.
  intros [Hc Hprobe] Hstart Hfuel. unfold walk_fuel in Hfuel.
  destruct (Hprobe start Hstart) as [tree Htree].
  destruct (find_root_terminates _ Hc fuel ∅ start) as (root & Hroot & Hin); [by eauto| |].
  { pose proof (subseteq_size (heap_ids (objects host) ∖ ∅) (heap_ids (objects host))
                  ltac:(set_solver)). lia. }
  destruct (flatten_terminates _ Hc fuel flat_init [root]) as [st Hst].
  { by apply Forall_singleton. }
  { simpl. lia. }
  exists root, st, tree. eexists. split; [done|]. split; [done|]. split; [done|].
  unfold LangChainTracer_new. rewrite Hstart, Hroot. simpl.
  unfold flat_init in Hst. rewrite Hst. simpl.
  unfold deref. rewrite Htree. simpl. done.
Qed.

(** C5: on every closed heap, cyclic or not, both walks of the constructor
    end within [walk_fuel] iterations, a bound that comes from the ids not
    yet visited, and give the same result for any larger bound; the second
    walk sets no id and no node twice, and every node it sets is in the run
    map under its id. *)
Theorem C5_walks_terminate host fields start :
  host_wf host →
  getTraceableRunTree host = Some start →
  ∃ root st,
    (∀ fuel, walk_fuel (objects host) ≤ fuel →
       find_root fuel (objects host) ∅ start = Done root
       ∧ flatten fuel (objects host) flat_init [root] = Done st
       ∧ ∃ this, LangChainTracer_new fuel host fields = Done this
                 ∧ runMap this = fl_runMap st)
    ∧ NoDup (fl_sets st).*1
    ∧ NoDup (fl_sets st).*2
    ∧ length (fl_sets st) ≤ size (heap_ids (objects host))
    ∧ (∀ i l, (i, l) ∈ fl_sets st →
         (∃ node, objects host !! l = Some node ∧ rt_id node = i)
         ∧ fl_runMap st !! i = Some l)
    ∧ (∀ i, i ∉ (fl_sets st).*1 → fl_runMap st !! i = None).
Proof.
  intros Hwf Hstart.
  destruct (LangChainTracer_new_with_tree (walk_fuel (objects host)) host fields start
              Hwf Hstart ltac:(lia)) as (root & st & tree & _ & Hroot & Hst & _).
  exists root, st.
  pose proof (flatten_inv _ BaseTracer_runMap _ _ _ _ Hst (flat_inv_init _ _)) as Hinv.
  split; [|split; [|split; [|split; [|split]]]].
  - intros fuel Hfuel.
    destruct (LangChainTracer_new_with_tree fuel host fields start Hwf Hstart Hfuel)
      as (root' & st' & tree' & this & Hroot' & Hst' & _ & Hnew & Hmap & _).
    rewrite (find_root_fuel_mono _ _ _ _ _ _ Hroot Hfuel) in Hroot'.
    injection Hroot' as <-.
    rewrite (flatten_fuel_mono _ _ _ _ _ _ Hst Hfuel) in Hst'.
    injection Hst' as <-.
    split; [by eapply find_root_fuel_mono|].
    split; [by eapply flatten_fuel_mono|].
    by exists this.
  - apply Hinv.
  - by eapply flat_inv_nodup_nodes.
  - by eapply flat_inv_bounded.
  - intros i l Hin. split; [by apply Hinv|].
    rewrite (inv_runMap _ _ _ Hinv). apply replay_lookup; [apply Hinv|done].
  - intros i Hi. rewrite (inv_runMap _ _ _ Hinv), replay_lookup_other by done.
    apply lookup_empty.
Qed.

Lemma cyclic_host_wf : host_wf cyclic_host.
Proof.
  split.
  - by apply (bool_decide_unpack _); vm_compute.
  - intros l [= <-]. by eexists.
Qed.

Lemma C5_walks_terminate_witness :
  host_wf cyclic_host
  ∧ getTraceableRunTree cyclic_host = Some 1
  ∧ ∃ root st,
    (∀ fuel, walk_fuel (objects cyclic_host) ≤ fuel →
       find_root fuel (objects cyclic_host) ∅ 1 = Done root
       ∧ flatten fuel (objects cyclic_host) flat_init [root] = Done st
       ∧ ∃ this, LangChainTracer_new fuel cyclic_host no_fields = Done this
                 ∧ runMap this = fl_runMap st)
    ∧ NoDup (fl_sets st).*1
    ∧ NoDup (fl_sets st).*2
    ∧ length (fl_sets st) ≤ size (heap_ids (objects cyclic_host))
    ∧ (∀ i l, (i, l) ∈ fl_sets st →
         (∃ node, objects cyclic_host !! l = Some node ∧ rt_id node = i)
         ∧ fl_runMap st !! i = Some l)
    ∧ (∀ i, i ∉ (fl_sets st).*1 → fl_runMap st !! i = None).
Proof.
  split; [exact cyclic_host_wf|]. split; [reflexivity|].
  exact (C5_walks_terminate cyclic_host no_fields 1 cyclic_host_wf eq_refl).
Defined.

(** On the malformed tree in which B and C are each other's parent and
    child, the walk up from B stops at B again and the walk down sets B and
    C once each. *)
Example cyclic_tree_walks :
  find_root 3 cyclic_heap ∅ 1 = Done 1
  ∧ (λ st, fl_sets <$> st) (match flatten 4 cyclic_heap flat_init [1] with
                            | Done st => Some st
                            | _ => None
                            end) = Some [("B", 1); ("C", 2)].
Proof. split; vm_compute; reflexivity. Qed.

(** C7: after construction the tracer's client is the ambient tree's client
    when a tree is found and carries one; otherwise it is the client the
    tracer had before: the one given in the fields or else a new one. *)
Theorem C7_client_adoption fuel host fields :
  host_wf host →
  walk_fuel (objects host) ≤ fuel →
  ∃ this,
    LangChainTracer_new fuel host fields = Done this
    ∧ (∀ tree_ref tree c,
         getTraceableRunTree host = Some tree_ref →
         objects host !! tree_ref = Some tree →
         rt_client tree = Some c →
         client this = c)
    ∧ (∀ tree_ref tree,
         getTraceableRunTree host = Some tree_ref →
         objects host !! tree_ref = Some tree →
         rt_client tree = None →
         client this = default (new_client host) (f_client fields))
    ∧ (getTraceableRunTree host = None →
         client this = default (new_client host) (f_client fields)).
Proof.
  intros Hwf Hfuel.
  destruct (getTraceableRunTree host) as [start|] eqn:Hstart.
  - destruct (LangChainTracer_new_with_tree fuel host fields start Hwf Hstart Hfuel)
      as (root & st & tree & this & _ & _ & Htree & Hnew & _ & Hclient).
    exists this. split; [done|]. split; [|split; [|done]].
    + intros tree_ref tree' c [= <-] Htree' Hc.
      rewrite Htree in Htree'. injection Htree' as <-. by rewrite Hclient, Hc.
    + intros tree_ref tree' [= <-] Htree' Hc.
      rewrite Htree in Htree'. injection Htree' as <-. by rewrite Hclient, Hc.
  - unfold LangChainTracer_new. rewrite Hstart.
    eexists. split; [reflexivity|]. split; [done|]. split; [done|]. done.
Qed.

Lemma chain_host_wf probe : probe ∈ [0; 1; 2] → host_wf (chain_host probe).
Proof.
  intros Hprobe. split.
  - by apply (bool_decide_unpack _); vm_compute.
  - intros l [= <-]. simpl.
    rewrite !elem_of_cons in Hprobe.
    destruct Hprobe as [-> | [-> | [-> | ?%elem_of_nil]]]; [by eexists.. | done].
Qed.

Lemma C7_client_adoption_witness :
  host_wf (chain_host 1)
  ∧ walk_fuel (objects (chain_host 1)) ≤ 10
  ∧ ∃ this,
      LangChainTracer_new 10 (chain_host 1) no_fields = Done this
      ∧ (∀ tree_ref tree c,
           getTraceableRunTree (chain_host 1) = Some tree_ref →
           objects (chain_host 1) !! tree_ref = Some tree →
           rt_client tree = Some c →
           client this = c)
      ∧ (∀ tree_ref tree,
           getTraceableRunTree (chain_host 1) = Some tree_ref →
           objects (chain_host 1) !! tree_ref = Some tree →
           rt_client tree = None →
           client this = default (new_client (chain_host 1)) (f_client no_fields))
      ∧ (getTraceableRunTree (chain_host 1) = None →
           client this = default (new_client (chain_host 1)) (f_client no_fields)).
Proof.
  assert (host_wf (chain_host 1)) as Hwf.
  { apply chain_host_wf. by apply (bool_decide_unpack _); vm_compute. }
  assert (walk_fuel (objects (chain_host 1)) ≤ 10) as Hfuel.
  { vm_compute. lia. }
  split; [exact Hwf|]. split; [exact Hfuel|].
  exact (C7_client_adoption 10 (chain_host 1) no_fields Hwf Hfuel).
Defined.

(** C10: a client given in the constructor's fields is replaced by the
    client of the ambient tree when that tree carries one. *)
Theorem C10_ambient_client_overrides_explicit
    fuel host fields explicit tree_ref tree ambient :
  host_wf host →
  walk_fuel (objects host) ≤ fuel →
  f_client fields = Some explicit →
  getTraceableRunTree host = Some tree_ref →
  objects host !! tree_ref = Some tree →
  rt_client tree = Some ambient →
  ∃ this,
    LangChainTracer_new fuel host fields = Done this
    ∧ client this = ambient
    ∧ (ambient ≠ explicit → client this ≠ explicit).
Proof.
  intros Hwf Hfuel Hexplicit Hstart Htree Hambient.
  destruct (LangChainTracer_new_with_tree fuel host fields tree_ref Hwf Hstart Hfuel)
    as (root & st & tree' & this & _ & _ & Htree' & Hnew & _ & Hclient).
  rewrite Htree in Htree'. injection Htree' as <-.
  exists this. split; [done|].
  rewrite Hclient, Hambient. simpl. done.
Qed.

Lemma C10_ambient_client_overrides_explicit_witness :
  host_wf (chain_host 1)
  ∧ walk_fuel (objects (chain_host 1)) ≤ 10
  ∧ f_client fields_with_client = Some (ClientRef 3)
  ∧ getTraceableRunTree (chain_host 1) = Some 1
  ∧ objects (chain_host 1) !! 1 = Some node_B
  ∧ rt_client node_B = Some (ClientRef 7)
  ∧ ∃ this,
      LangChainTracer_new 10 (chain_host 1) fields_with_client = Done this
      ∧ client this = ClientRef 7
      ∧ (ClientRef 7 ≠ ClientRef 3 → client this ≠ ClientRef 3).
Proof.
  assert (host_wf (chain_host 1)) as Hwf.
  { apply chain_host_wf. by apply (bool_decide_unpack _); vm_compute. }
  assert (walk_fuel (objects (chain_host 1)) ≤ 10) as Hfuel.
  { vm_compute. lia. }
  repeat (split; [first [exact Hwf | exact Hfuel | reflexivity]|]).
  exact (C10_ambient_client_overrides_explicit 10 (chain_host 1) fields_with_client
           (ClientRef 3) 1 node_B (ClientRef 7) Hwf Hfuel eq_refl eq_refl eq_refl eq_refl).
Defined.

(** ** Hydration from a chain *)

Lemma find_root_step_up (h : heap) fuel visited l node parent :
  h !! l = Some node → rt_parent_run node = Some parent → rt_id node ∉ visited →
  find_root (S fuel) h visited l = find_root fuel h ({[rt_id node]} ∪ visited) parent.
Proof.
  intros Hl Hp Hnew. simpl. unfold deref. rewrite Hl. simpl. rewrite Hp.
  by rewrite decide_False.
Qed.

Lemma find_root_step_top (h : heap) fuel visited l node :
  h !! l = Some node → rt_parent_run node = None →
  find_root (S fuel) h visited l = Done l.
Proof.
  intros Hl Hp. simpl. unfold deref. rewrite Hl. simpl. by rewrite Hp.
Qed.

Lemma flatten_step_visit (h : heap) fuel st current rest node :
  h !! current = Some node → rt_id node ∉ fl_visited st →
  flatten (S fuel) h st (current :: rest) =
    flatten fuel h
      {| fl_visited := {[rt_id node]} ∪ fl_visited st;
         fl_runMap := <[rt_id node := current]> (fl_runMap st);
         fl_sets := fl_sets st ++ [(rt_id node, current)] |}
      (rest ++ default [] (rt_child_runs node)).
Proof.
  intros Hl Hnew. simpl. unfold deref. rewrite Hl. simpl.
  by rewrite decide_False.
Qed.

(** From any node of a chain the upward walk reaches A. *)
Lemma find_root_chain (h : heap) a b c A B C start fuel :
  is_chain h a b c A B C → start ∈ [a; b; c] → 3 ≤ fuel →
  find_root fuel h ∅ start = Done a.
Proof.
  intros (Ha & Hb & Hc & HpA & _ & HpB & _ & HpC & _ & Hab & Hbc & Hac) Hstart Hfuel.
  apply (find_root_fuel_mono h 3); [|done].
  rewrite !elem_of_cons in Hstart.
  destruct Hstart as [-> | [-> | [-> | ?%elem_of_nil]]]; [| | |done].
  - by erewrite find_root_step_top.
  - erewrite find_root_step_up by (done || set_solver).
    by erewrite find_root_step_top.
  - erewrite find_root_step_up by (done || set_solver).
    erewrite find_root_step_up by (done || set_solver).
    by erewrite find_root_step_top.
Qed.

(** From A the downward walk sets A, B and C, in this order. *)
Lemma flatten_chain (h : heap) a b c A B C fuel :
  is_chain h a b c A B C → 4 ≤ fuel →
  ∃ st,
    flatten fuel h flat_init [a] = Done st
    ∧ fl_sets st = [(rt_id A, a); (rt_id B, b); (rt_id C, c)].
Proof.
  intros (Ha & Hb & Hc & _ & HcA & _ & HcB & _ & HcC & Hab & Hbc & Hac) Hfuel.
  eexists. split.
  - apply (flatten_fuel_mono h 4); [|done].
    erewrite flatten_step_visit by (done || set_solver).
    rewrite HcA. cbn [from_option app Datatypes.id].
    erewrite flatten_step_visit by (done || set_solver).
    rewrite HcB. cbn [from_option app Datatypes.id].
    erewrite flatten_step_visit by (done || set_solver).
    rewrite HcC. cbn [from_option app Datatypes.id]. reflexivity.
  - reflexivity.
Qed.

(** C4, as stated, fails: on a chain whose nodes are linked by [parent_run]
    only, the record returned for B has no [parent_run_id]. *)
Lemma C4_parent_run_id_not_derived : ¬ hydrated_parent_run_id.
Proof.
  intros claim.
  destruct (claim 4 (chain_host 2) no_fields 0 1 2 node_A node_B node_C 2)
    as (this & record & Hnew & Hrecord & Hparent).
  - by repeat split.
  - reflexivity.
  - by apply (bool_decide_unpack _); vm_compute.
  - lia.
  - vm_compute in Hnew. injection Hnew as <-.
    vm_compute in Hrecord. injection Hrecord as <-.
    discriminate Hparent.
Qed.

(** C4 (amended): constructing a tracer inside a chain A → B → C with
    distinct ids, from whichever node the probe returns, leaves in the run
    map exactly the three entries from A's, B's and C's ids to their own
    nodes; [getRun] of B's id returns B's node as the ambient tree holds it,
    whose [parent_run] is A, and whose [parent_run_id] is A's id when the
    ambient node carries it. *)
Theorem C4_chain_hydration fuel host fields a b c A B C start :
  is_chain (objects host) a b c A B C →
  current_run_tree host = Ok (Some start) →
  start ∈ [a; b; c] →
  4 ≤ fuel →
  ∃ this,
    LangChainTracer_new fuel host fields = Done this
    ∧ (∀ i l, runMap this !! i = Some l
              ↔ (i = rt_id A ∧ l = a) ∨ (i = rt_id B ∧ l = b) ∨ (i = rt_id C ∧ l = c))
    ∧ getRun this (rt_id B) = Some b
    ∧ getRun_record host this (rt_id B) = Some B
    ∧ rt_parent_run B = Some a
    ∧ (rt_parent_run_id B = Some (rt_id A) →
       ∃ record, getRun_record host this (rt_id B) = Some record
                 ∧ rt_parent_run_id record = Some (rt_id A)).
Proof.
  intros Hchain Hprobe Hstart Hfuel.
  pose proof (find_root_chain _ _ _ _ _ _ _ start fuel Hchain Hstart ltac:(lia)) as Hroot.
  destruct (flatten_chain _ _ _ _ _ _ _ fuel Hchain Hfuel) as (st & Hst & Hsets).
  pose proof (flatten_inv _ BaseTracer_runMap _ _ _ _ Hst (flat_inv_init _ _)) as Hinv.
  destruct Hchain as (Ha & Hb & Hc & _ & _ & HpB & _ & _ & _ & Hab & Hbc & Hac).
  assert (is_Some (objects host !! start)) as [tree Htree].
  { rewrite !elem_of_cons in Hstart.
    destruct Hstart as [-> | [-> | [-> | ?%elem_of_nil]]]; by eauto. }
  assert (∀ i l, fl_runMap st !! i = Some l
                 ↔ (i = rt_id A ∧ l = a) ∨ (i = rt_id B ∧ l = b) ∨ (i = rt_id C ∧ l = c))
    as Hmap.
  { intros i l. rewrite (inv_runMap _ _ _ Hinv), Hsets. unfold replay. simpl.
    unfold BaseTracer_runMap.
    destruct (decide (i = rt_id C)) as [-> | HnC].
    { rewrite lookup_insert_eq. split; [intros [= <-]; auto|].
      intros [[? ?] | [[? ?] | [? ?]]]; congruence. }
    rewrite lookup_insert_ne by done.
    destruct (decide (i = rt_id B)) as [-> | HnB].
    { rewrite lookup_insert_eq. split; [intros [= <-]; auto|].
      intros [[? ?] | [[? ?] | [? ?]]]; congruence. }
    rewrite lookup_insert_ne by done.
    destruct (decide (i = rt_id A)) as [-> | HnA].
    { rewrite lookup_insert_eq. split; [intros [= <-]; auto|].
      intros [[? ?] | [[? ?] | [? ?]]]; congruence. }
    rewrite lookup_insert_ne by done. rewrite lookup_empty.
    split; [done|]. intros [[? ?] | [[? ?] | [? ?]]]; congruence. }
  eexists. split.
  { unfold LangChainTracer_new, getTraceableRunTree. rewrite Hprobe, Hroot. simpl.
    unfold flat_init in Hst. rewrite Hst. simpl.
    unfold deref. rewrite Htree. simpl. reflexivity. }
  simpl.
  assert (fl_runMap st !! rt_id B = Some b) as HB by (apply Hmap; auto).
  split; [done|]. split; [done|].
  assert (getRun_record host
            {| name := "langchain_tracer";
               projectName := nullish (f_projectName fields)
                 (nullish (getEnvironmentVariable host "LANGCHAIN_PROJECT")
                          (getEnvironmentVariable host "LANGCHAIN_SESSION"));
               exampleId := f_exampleId fields;
               client := default (default (new_client host) (f_client fields))
                           (rt_client tree);
               runMap := fl_runMap st |} (rt_id B) = Some B) as Hrec.
  { unfold getRun_record, getRun. simpl. rewrite HB. simpl. done. }
  split; [done|]. split; [done|].
  intros Hpid. exists B. done.
Qed.

Lemma C4_chain_hydration_witness :
  is_chain (objects (chain_host 2)) 0 1 2 node_A node_B node_C
  ∧ current_run_tree (chain_host 2) = Ok (Some 2)
  ∧ 2 ∈ [0; 1; 2]
  ∧ 4 ≤ 4
  ∧ ∃ this,
      LangChainTracer_new 4 (chain_host 2) no_fields = Done this
      ∧ (∀ i l, runMap this !! i = Some l
                ↔ (i = rt_id node_A ∧ l = 0) ∨ (i = rt_id node_B ∧ l = 1)
                  ∨ (i = rt_id node_C ∧ l = 2))
      ∧ getRun this (rt_id node_B) = Some 1
      ∧ getRun_record (chain_host 2) this (rt_id node_B) = Some node_B
      ∧ rt_parent_run node_B = Some 0
      ∧ (rt_parent_run_id node_B = Some (rt_id node_A) →
         ∃ record, getRun_record (chain_host 2) this (rt_id node_B) = Some record
                   ∧ rt_parent_run_id record = Some (rt_id node_A)).
Proof.
  assert (is_chain (objects (chain_host 2)) 0 1 2 node_A node_B node_C) as Hchain
    by (by repeat split).
  assert (2 ∈ [0; 1; 2]) as Hstart by (by apply (bool_decide_unpack _); vm_compute).
  assert (4 ≤ 4) as Hfuel by lia.
  split; [exact Hchain|]. split; [reflexivity|]. split; [exact Hstart|].
  split; [exact Hfuel|].
  exact (C4_chain_hydration 4 (chain_host 2) no_fields 0 1 2 node_A node_B node_C 2
           Hchain eq_refl Hstart Hfuel).
Defined.

(** * Further properties *)

(** ** Root discovery *)

Lemma climbs_app (h : heap) l ids1 mid ids2 top :
  climbs h l ids1 mid → climbs h mid ids2 top → climbs h l (ids1 ++ ids2) top.
Proof.
  induction 1 as [l | l node parent ids mid Hl Hp _ IH]; intros Hrest; [done|].
  simpl. eapply climbs_up; eauto.
Qed.

Lemma climbs_ids (h : heap) l ids top i :
  climbs h l ids top → i ∈ ids → i ∈ heap_ids h.
Proof.
  induction 1 as [l | l node parent ids top Hl Hp _ IH]; [by intros ?%elem_of_nil|].
  rewrite elem_of_cons. intros [-> | Hin]; [by eapply heap_ids_elem | by apply IH].
Qed.

Lemma climbs_step (h : heap) l node parent i ids top :
  h !! l = Some node → rt_parent_run node = Some parent → rt_id node = i →
  climbs h parent ids top → climbs h l (i :: ids) top.
Proof. intros Hl Hp <- Hrest. by eapply climbs_up. Qed.

(** Along parent links whose ids are new, the first loop only moves up. *)
Lemma find_root_along (h : heap) l ids top :
  climbs h l ids top →
  ∀ visited fuel,
    NoDup ids → (∀ i, i ∈ ids → i ∉ visited) →
    find_root (length ids + fuel) h visited l
    = find_root fuel h (list_to_set ids ∪ visited) top.
Proof.
  induction 1 as [l | l node parent ids top Hl Hp _ IH];
    intros visited fuel Hnd Hfresh; simpl length.
  - simpl. by rewrite (left_id_L ∅ (∪)).
  - apply NoDup_cons in Hnd as [Hhead Hnd].
    change (S (length ids) + fuel) with (S (length ids + fuel)).
    rewrite (find_root_step_up h _ visited l node parent Hl Hp)
      by (apply Hfresh, list_elem_of_here).
    rewrite IH; [|done|].
    + f_equal. set_solver.
    + intros i Hi. rewrite not_elem_of_union, not_elem_of_singleton. split.
      * by intros ->.
      * by apply Hfresh, list_elem_of_further.
Qed.

(** X2: when the parent links from the probed node lead, through nodes with
    pairwise distinct ids, to a node without parent, root discovery returns
    that node, however long the way. *)
Theorem find_root_reaches_parentless (h : heap) start ids top node fuel :
  climbs h start ids top →
  NoDup ids →
  h !! top = Some node →
  rt_parent_run node = None →
  length ids < fuel →
  find_root fuel h ∅ start = Done top.
Proof.
  intros Hclimb Hnd Htop Hnone Hfuel.
  replace fuel with (length ids + S (fuel - length ids - 1)) by lia.
  rewrite (find_root_along h _ _ _ Hclimb) by (done || set_solver).
  by eapply find_root_step_top.
Qed.

Lemma fork_climbs_from_leaf : climbs fork_heap 3 ["Y"; "X"] 0.
Proof.
  eapply (climbs_step fork_heap 3); [reflexivity | reflexivity | reflexivity |].
  eapply (climbs_step fork_heap 1); [reflexivity | reflexivity | reflexivity |].
  apply climbs_here.
Qed.

Lemma find_root_reaches_parentless_witness :
  climbs fork_heap 3 ["Y"; "X"] 0
  ∧ NoDup ["Y"; "X"]
  ∧ length ["Y"; "X"] < 3
  ∧ find_root 3 fork_heap ∅ 3 = Done 0.
Proof.
  assert (NoDup ["Y"; "X"]) as Hnd by (by apply (bool_decide_unpack _); vm_compute).
  assert (length ["Y"; "X"] < 3) as Hfuel by (simpl; lia).
  split; [exact fork_climbs_from_leaf|]. split; [exact Hnd|]. split; [exact Hfuel|].
  exact (find_root_reaches_parentless fork_heap 3 ["Y"; "X"] 0 _ 3
           fork_climbs_from_leaf Hnd eq_refl eq_refl Hfuel).
Defined.

(** X3: when the parent links from the probed node lead into a cycle, all
    ids on the way and on the cycle being distinct, root discovery returns
    the node at which the walk entered the cycle; a probed node that lies on
    the cycle is returned itself. *)
Theorem find_root_stops_at_cycle_entry (h : heap) start tail entry cycle fuel :
  climbs h start tail entry →
  climbs h entry cycle entry →
  cycle ≠ [] →
  NoDup (tail ++ cycle) →
  length (tail ++ cycle) < fuel →
  find_root fuel h ∅ start = Done entry.
Proof.
  intros Htail Hcycle Hne Hnd Hfuel.
  pose proof (climbs_app _ _ _ _ _ _ Htail Hcycle) as Hclimb.
  replace fuel with (length (tail ++ cycle) + S (fuel - length (tail ++ cycle) - 1))
    by lia.
  rewrite (find_root_along h _ _ _ Hclimb) by (done || set_solver).
  inversion Hcycle as [| ? node parent ids ? Hl Hp _]; subst; [done|].
  simpl. unfold deref. rewrite Hl. simpl. rewrite Hp.
  rewrite decide_True; [done|]. set_solver.
Qed.

Lemma cyclic_climbs : climbs cyclic_heap 1 ["B"; "C"] 1.
Proof.
  eapply (climbs_step cyclic_heap 1); [reflexivity | reflexivity | reflexivity |].
  eapply (climbs_step cyclic_heap 2); [reflexivity | reflexivity | reflexivity |].
  apply climbs_here.
Qed.

Lemma find_root_stops_at_cycle_entry_witness :
  climbs cyclic_heap 1 [] 1
  ∧ climbs cyclic_heap 1 ["B"; "C"] 1
  ∧ ["B"; "C"] ≠ []
  ∧ NoDup ([] ++ ["B"; "C"])
  ∧ length ([] ++ ["B"; "C"]) < 3
  ∧ find_root 3 cyclic_heap ∅ 1 = Done 1.
Proof.
  assert (["B"; "C"] ≠ []) as Hne by done.
  assert (NoDup ([] ++ ["B"; "C"])) as Hnd
    by (by apply (bool_decide_unpack _); vm_compute).
  assert (length ([] ++ ["B"; "C"]) < 3) as Hfuel by (simpl; lia).
  split; [apply climbs_here|]. split; [exact cyclic_climbs|].
  split; [exact Hne|]. split; [exact Hnd|]. split; [exact Hfuel|].
  exact (find_root_stops_at_cycle_entry cyclic_heap 1 [] 1 ["B"; "C"] 3
           (climbs_here _ _) cyclic_climbs Hne Hnd Hfuel).
Defined.

(** What the first loop returns, from any visited set. *)
Lemma find_root_sound (h : heap) :
  ∀ fuel visited l root,
    find_root fuel h visited l = Done root →
    ∃ ids node,
      climbs h l ids root
      ∧ NoDup ids
      ∧ (∀ i, i ∈ ids → i ∉ visited)
      ∧ h !! root = Some node
      ∧ (rt_parent_run node = None ∨ rt_id node ∈ visited ∨ rt_id node ∈ ids).
Proof.
  induction fuel as [|fuel IH]; intros visited l root Hdone; [done|].
  simpl in Hdone. unfold deref in Hdone.
  destruct (h !! l) as [node|] eqn:Hl; [|done]. simpl in Hdone.
  destruct (rt_parent_run node) as [parent|] eqn:Hp.
  - case_decide as Hin.
    + injection Hdone as <-. exists [], node.
      split; [apply climbs_here|]. split; [apply NoDup_nil_2|].
      split; [by intros ? ?%elem_of_nil|]. split; [done|]. right. by left.
    + destruct (IH _ _ _ Hdone) as (ids & top & Hclimb & Hnd & Hfresh & Htop & Hend).
      exists (rt_id node :: ids), top.
      split; [by eapply climbs_up|].
      split.
      { apply NoDup_cons. split; [|done]. intros Hi. apply (Hfresh _ Hi). set_solver. }
      split.
      { intros i. rewrite elem_of_cons. intros [-> | Hi]; [done|].
        specialize (Hfresh _ Hi). set_solver. }
      split; [done|].
      destruct Hend as [? | [Hv | ?]]; [by left | | right; right; set_solver].
      apply elem_of_union in Hv as [->%elem_of_singleton | ?].
      * right. right. apply list_elem_of_here.
      * right. by left.
  - injection Hdone as <-. exists [], node.
    split; [apply climbs_here|]. split; [apply NoDup_nil_2|].
    split; [by intros ? ?%elem_of_nil|]. split; [done|]. by left.
Qed.

(** X1: on every closed heap root discovery returns a node that is reached
    from the probed node by parent links through nodes with pairwise
    distinct ids, and that either has no parent or carries the id of a node
    passed on the way (a repeated id cuts the walk short). *)
Theorem find_root_result (h : heap) start fuel :
  heap_closed h →
  is_Some (h !! start) →
  size (heap_ids h) < fuel →
  ∃ root ids node,
    find_root fuel h ∅ start = Done root
    ∧ climbs h start ids root
    ∧ NoDup ids
    ∧ h !! root = Some node
    ∧ (rt_parent_run node = None ∨ rt_id node ∈ ids).
Proof.
  intros Hc Hstart Hfuel.
  destruct (find_root_terminates h Hc fuel ∅ start Hstart) as (root & Hroot & _).
  { pose proof (subseteq_size (heap_ids h ∖ ∅) (heap_ids h) ltac:(set_solver)). lia. }
  destruct (find_root_sound h _ _ _ _ Hroot) as (ids & node & ? & ? & _ & ? & Hend).
  exists root, ids, node. repeat (split; [done|]).
  destruct Hend as [? | [?%not_elem_of_empty | ?]]; [by left | done | by right].
Qed.

Lemma find_root_result_witness :
  heap_closed cyclic_heap
  ∧ is_Some (cyclic_heap !! 1)
  ∧ size (heap_ids cyclic_heap) < 3
  ∧ ∃ root ids node,
      find_root 3 cyclic_heap ∅ 1 = Done root
      ∧ climbs cyclic_heap 1 ids root
      ∧ NoDup ids
      ∧ cyclic_heap !! root = Some node
      ∧ (rt_parent_run node = None ∨ rt_id node ∈ ids).
Proof.
  assert (heap_closed cyclic_heap) as Hc
    by (by apply (bool_decide_unpack _); vm_compute).
  assert (is_Some (cyclic_heap !! 1)) as Hstart by (by eexists).
  assert (size (heap_ids cyclic_heap) < 3) as Hfuel by (vm_compute; lia).
  split; [exact Hc|]. split; [exact Hstart|]. split; [exact Hfuel|].
  exact (find_root_result cyclic_heap 1 3 Hc Hstart Hfuel).
Defined.

(** ** Hydration of the run map *)

Lemma flatten_sets_grow (h : heap) :
  ∀ fuel st queue st',
    flatten fuel h st queue = Done st' → ∃ more, fl_sets st' = fl_sets st ++ more.
Proof.
  induction fuel as [|fuel IH]; intros st queue st' Hdone; [done|].
  simpl in Hdone. destruct queue as [|current rest].
  { injection Hdone as <-. exists []. by rewrite app_nil_r. }
  unfold deref in Hdone. destruct (h !! current) as [node|]; [|done].
  simpl in Hdone. case_decide.
  - by eapply IH.
  - destruct (IH _ _ _ Hdone) as [more Hmore]. simpl in Hmore.
    eexists. by rewrite Hmore, <- app_assoc.
Qed.

(** The second loop only sets nodes reached from the root through
    [child_runs]. *)
Lemma flatten_descends (h : heap) root :
  ∀ fuel st queue st',
    flatten fuel h st queue = Done st' →
    Forall (descends h root) queue →
    (∀ i l, (i, l) ∈ fl_sets st → descends h root l) →
    ∀ i l, (i, l) ∈ fl_sets st' → descends h root l.
Proof.
  induction fuel as [|fuel IH]; intros st queue st' Hdone Hq Hsets; [done|].
  simpl in Hdone. destruct queue as [|current rest]; [by injection Hdone as <-|].
  unfold deref in Hdone. destruct (h !! current) as [node|] eqn:Hl; [|done].
  simpl in Hdone. apply Forall_cons in Hq as [Hcur Hrest]. case_decide.
  - by eapply IH.
  - eapply IH; [done| |]; simpl.
    + apply Forall_app. split; [done|]. apply Forall_forall. intros c Hc.
      eapply rtc_r; [done|]. by exists node.
    + intros i l. rewrite elem_of_app, list_elem_of_singleton.
      intros [? | [= -> ->]]; [by eapply Hsets | done].
Qed.

(** When the second loop ends, every child of a node it has set has its id
    visited. *)
Lemma flatten_children_covered (h : heap) :
  ∀ fuel st queue st',
    flatten fuel h st queue = Done st' →
    children_covered h st queue →
    children_covered h st' [].
Proof.
  induction fuel as [|fuel IH]; intros st queue st' Hdone Hcov; [done|].
  simpl in Hdone. destruct queue as [|current rest]; [by injection Hdone as <-|].
  unfold deref in Hdone. destruct (h !! current) as [node|] eqn:Hl; [|done].
  simpl in Hdone. case_decide as Hin.
  - eapply IH; [done|]. intros i l n c Hset Hn Hc.
    destruct (Hcov i l n c Hset Hn Hc) as [[-> | ?]%elem_of_cons | ?]; eauto.
  - eapply IH; [done|]. intros i l n c. simpl.
    rewrite elem_of_app, list_elem_of_singleton.
    intros [Hset | [= -> ->]] Hn Hc.
    + destruct (Hcov i l n c Hset Hn Hc)
        as [[-> | ?]%elem_of_cons | (child & ? & ?)].
      * right. exists node. split; [done|]. set_solver.
      * left. apply elem_of_app. by left.
      * right. exists child. split; [done|]. set_solver.
    + rewrite Hl in Hn. injection Hn as <-. left. apply elem_of_app. by right.
Qed.

(** Started on an empty run map, the run map holds exactly the calls of
    [runMap.set]. *)
Lemma flat_inv_runMap_sets (h : heap) st i l :
  flat_inv h ∅ st → fl_runMap st !! i = Some l ↔ (i, l) ∈ fl_sets st.
Proof.
  intros Hinv. rewrite (inv_runMap _ _ _ Hinv). split.
  - intros Hlook. destruct (decide (i ∈ (fl_sets st).*1)) as [Hin | Hout].
    + apply list_elem_of_fmap in Hin as ([j l'] & -> & Hin). simpl in *.
      rewrite (replay_lookup _ _ _ _ (inv_nodup _ _ _ Hinv) Hin) in Hlook.
      by injection Hlook as <-.
    + by rewrite replay_lookup_other, lookup_empty in Hlook.
  - apply replay_lookup, Hinv.
Qed.

(** The root is the first node the second loop sets. *)
Lemma flatten_sets_root (h : heap) fuel root node st :
  h !! root = Some node →
  flatten fuel h flat_init [root] = Done st →
  (rt_id node, root) ∈ fl_sets st.
Proof.
  intros Hroot Hdone. destruct fuel as [|fuel]; [done|].
  rewrite (flatten_step_visit h fuel flat_init root [] node Hroot) in Hdone
    by (simpl; set_solver).
  destruct (flatten_sets_grow _ _ _ _ _ Hdone) as [more ->]. simpl.
  apply list_elem_of_here.
Qed.

(** What construction inside an ambient tree establishes about the run map,
    in terms of the discovered root. *)
Lemma hydration_facts fuel host fields start :
  host_wf host →
  getTraceableRunTree host = Some start →
  walk_fuel (objects host) ≤ fuel →
  ∃ root st this,
    LangChainTracer_new fuel host fields = Done this
    ∧ find_root fuel (objects host) ∅ start = Done root
    ∧ flatten fuel (objects host) flat_init [root] = Done st
    ∧ runMap this = fl_runMap st
    ∧ flat_inv (objects host) ∅ st
    ∧ is_Some (objects host !! root).
Proof.
  intros Hwf Hstart Hfuel.
  destruct (LangChainTracer_new_with_tree fuel host fields start Hwf Hstart Hfuel)
    as (root & st & tree & this & Hroot & Hst & _ & Hnew & Hmap & _).
  exists root, st, this. repeat (split; [done|]).
  split.
  - apply (flatten_inv _ ∅ _ _ _ _ Hst), flat_inv_init.
  - destruct (find_root_sound _ _ _ _ _ Hroot) as (_ & node & _ & _ & _ & ? & _).
    by exists node.
Qed.

(** X4: every entry that construction leaves in the run map maps the id of
    a node of the ambient tree to that very node, and the node is reached
    from the discovered root through [child_runs]. *)
Theorem hydrated_entries_are_tree_nodes fuel host fields start :
  host_wf host →
  getTraceableRunTree host = Some start →
  walk_fuel (objects host) ≤ fuel →
  ∃ root this,
    LangChainTracer_new fuel host fields = Done this
    ∧ find_root fuel (objects host) ∅ start = Done root
    ∧ ∀ run_id l,
        getRun this run_id = Some l →
        descends (objects host) root l
        ∧ ∃ node, objects host !! l = Some node ∧ rt_id node = run_id.
Proof.
  intros Hwf Hstart Hfuel.
  destruct (hydration_facts fuel host fields start Hwf Hstart Hfuel)
    as (root & st & this & Hnew & Hroot & Hst & Hmap & Hinv & _).
  exists root, this. split; [done|]. split; [done|].
  intros run_id l. unfold getRun. rewrite Hmap, (flat_inv_runMap_sets _ _ _ _ Hinv).
  intros Hset. split.
  - eapply (flatten_descends _ root _ _ _ _ Hst); [| |done].
    + apply Forall_singleton. apply rtc_refl.
    + by intros ? ? ?%elem_of_nil.
  - by apply (inv_nodes _ _ _ Hinv).
Qed.

Lemma fork_host_wf probe : probe ∈ [0; 1; 2; 3; 4] → host_wf (fork_host probe).
Proof.
  intros Hprobe. split.
  - by apply (bool_decide_unpack _); vm_compute.
  - intros l [= <-]. simpl.
    rewrite !elem_of_cons in Hprobe.
    destruct Hprobe as [-> | [-> | [-> | [-> | [-> | ?%elem_of_nil]]]]];
      [by eexists.. | done].
Qed.

Lemma hydrated_entries_are_tree_nodes_witness :
  host_wf (fork_host 4)
  ∧ getTraceableRunTree (fork_host 4) = Some 4
  ∧ walk_fuel (objects (fork_host 4)) ≤ 12
  ∧ ∃ root this,
      LangChainTracer_new 12 (fork_host 4) no_fields = Done this
      ∧ find_root 12 (objects (fork_host 4)) ∅ 4 = Done root
      ∧ ∀ run_id l,
          getRun this run_id = Some l →
          descends (objects (fork_host 4)) root l
          ∧ ∃ node, objects (fork_host 4) !! l = Some node ∧ rt_id node = run_id.
Proof.
  assert (host_wf (fork_host 4)) as Hwf.
  { apply fork_host_wf. by apply (bool_decide_unpack _); vm_compute. }
  assert (walk_fuel (objects (fork_host 4)) ≤ 12) as Hfuel by (vm_compute; lia).
  split; [exact Hwf|]. split; [reflexivity|]. split; [exact Hfuel|].
  exact (hydrated_entries_are_tree_nodes 12 (fork_host 4) no_fields 4 Hwf eq_refl Hfuel).
Defined.

(** X5: construction inside an ambient tree always leaves the discovered
    root in the run map under its id, also when ids repeat or the tree is
    cyclic. *)
Theorem hydrated_root_present fuel host fields start :
  host_wf host →
  getTraceableRunTree host = Some start →
  walk_fuel (objects host) ≤ fuel →
  ∃ root node this,
    LangChainTracer_new fuel host fields = Done this
    ∧ find_root fuel (objects host) ∅ start = Done root
    ∧ objects host !! root = Some node
    ∧ getRun this (rt_id node) = Some root.
Proof.
  intros Hwf Hstart Hfuel.
  destruct (hydration_facts fuel host fields start Hwf Hstart Hfuel)
    as (root & st & this & Hnew & Hroot & Hst & Hmap & Hinv & [node Hnode]).
  exists root, node, this. repeat (split; [done|]).
  unfold getRun. rewrite Hmap. apply (flat_inv_runMap_sets _ _ _ _ Hinv).
  by eapply flatten_sets_root.
Qed.

Lemma hydrated_root_present_witness :
  host_wf cyclic_host
  ∧ getTraceableRunTree cyclic_host = Some 1
  ∧ walk_fuel (objects cyclic_host) ≤ 6
  ∧ ∃ root node this,
      LangChainTracer_new 6 cyclic_host no_fields = Done this
      ∧ find_root 6 (objects cyclic_host) ∅ 1 = Done root
      ∧ objects cyclic_host !! root = Some node
      ∧ getRun this (rt_id node) = Some root.
Proof.
  assert (walk_fuel (objects cyclic_host) ≤ 6) as Hfuel by (vm_compute; lia).
  split; [exact cyclic_host_wf|]. split; [reflexivity|]. split; [exact Hfuel|].
  exact (hydrated_root_present 6 cyclic_host no_fields 1 cyclic_host_wf eq_refl Hfuel).
Defined.

(** With unique ids, every node reached from the root is set. *)
Lemma flatten_complete (h : heap) fuel root st :
  ids_unique h →
  is_Some (h !! root) →
  flatten fuel h flat_init [root] = Done st →
  ∀ l, descends h root l → ∃ node, h !! l = Some node ∧ (rt_id node, l) ∈ fl_sets st.
Proof.
  intros Huniq [rnode Hroot] Hst.
  pose proof (flatten_inv _ ∅ _ _ _ _ Hst (flat_inv_init _ _)) as Hinv.
  assert (children_covered h st []) as Hcov.
  { apply (flatten_children_covered _ _ _ _ _ Hst).
    by intros i l node c ?%elem_of_nil. }
  apply (rtc_ind_r (λ l, ∃ node, h !! l = Some node ∧ (rt_id node, l) ∈ fl_sets st)).
  - exists rnode. split; [done|]. by eapply flatten_sets_root.
  - intros l c Hup Hstep IH.
    destruct Hstep as (lnode & Hlnode & Hc). destruct IH as (node & Hnode & Hset).
    rewrite Hlnode in Hnode. injection Hnode as <-.
    destruct (Hcov _ _ _ c Hset Hlnode Hc) as [?%elem_of_nil | (child & Hchild & Hvis)];
      [done|].
    exists child. split; [done|].
    apply (inv_visited _ _ _ Hinv), list_elem_of_fmap in Hvis
      as ([j c'] & Hj & Hset'). simpl in Hj. subst j.
    destruct (inv_nodes _ _ _ Hinv _ _ Hset') as (other & Hother & Hid).
    by rewrite (Huniq _ _ Hchild _ _ Hother (eq_sym Hid)).
Qed.

(** X6: when no two objects of the ambient heap share an id, the run map
    after construction holds exactly the nodes reached from the discovered
    root through [child_runs], each under its own id. *)
Theorem hydrated_run_map_is_subtree fuel host fields start :
  host_wf host →
  ids_unique (objects host) →
  getTraceableRunTree host = Some start →
  walk_fuel (objects host) ≤ fuel →
  ∃ root this,
    LangChainTracer_new fuel host fields = Done this
    ∧ find_root fuel (objects host) ∅ start = Done root
    ∧ ∀ run_id l,
        getRun this run_id = Some l
        ↔ descends (objects host) root l
          ∧ ∃ node, objects host !! l = Some node ∧ rt_id node = run_id.
Proof.
  intros Hwf Huniq Hstart Hfuel.
  destruct (hydration_facts fuel host fields start Hwf Hstart Hfuel)
    as (root & st & this & Hnew & Hroot & Hst & Hmap & Hinv & Hnode).
  exists root, this. split; [done|]. split; [done|].
  intros run_id l. unfold getRun. rewrite Hmap, (flat_inv_runMap_sets _ _ _ _ Hinv).
  split.
  - intros Hset. split.
    + eapply (flatten_descends _ root _ _ _ _ Hst); [| |done].
      * apply Forall_singleton. apply rtc_refl.
      * by intros ? ? ?%elem_of_nil.
    + by apply (inv_nodes _ _ _ Hinv).
  - intros (Hdesc & node & Hl & <-).
    destruct (flatten_complete _ _ _ _ Huniq Hnode Hst l Hdesc) as (node' & Hl' & ?).
    rewrite Hl in Hl'. by injection Hl' as <-.
Qed.

Lemma hydrated_run_map_is_subtree_witness :
  host_wf (chain_host 2)
  ∧ ids_unique (objects (chain_host 2))
  ∧ getTraceableRunTree (chain_host 2) = Some 2
  ∧ walk_fuel (objects (chain_host 2)) ≤ 8
  ∧ ∃ root this,
      LangChainTracer_new 8 (chain_host 2) no_fields = Done this
      ∧ find_root 8 (objects (chain_host 2)) ∅ 2 = Done root
      ∧ ∀ run_id l,
          getRun this run_id = Some l
          ↔ descends (objects (chain_host 2)) root l
            ∧ ∃ node, objects (chain_host 2) !! l = Some node ∧ rt_id node = run_id.
Proof.
  assert (host_wf (chain_host 2)) as Hwf.
  { apply chain_host_wf. by apply (bool_decide_unpack _); vm_compute. }
  assert (ids_unique (objects (chain_host 2))) as Huniq
    by (by apply (bool_decide_unpack _); vm_compute).
  assert (walk_fuel (objects (chain_host 2)) ≤ 8) as Hfuel by (vm_compute; lia).
  split; [exact Hwf|]. split; [exact Huniq|]. split; [reflexivity|].
  split; [exact Hfuel|].
  exact (hydrated_run_map_is_subtree 8 (chain_host 2) no_fields 2 Hwf Huniq eq_refl Hfuel).
Defined.

(** Where ids repeat, the node set first keeps the id and the subtree of
    the later one is not walked. *)
Example repeated_id_first_wins :
  (λ st, fl_sets <$> st) (match flatten 12 fork_heap flat_init [0] with
                          | Done st => Some st
                          | _ => None
                          end) = Some [("R", 0); ("X", 1); ("Y", 3)].
Proof. vm_compute. reflexivity. Qed.

(** X7: the run map after construction does not depend on which node of the
    tree the probe returned, as long as parent links lead from it, through
    nodes with distinct ids, to the same node without parent. *)
Theorem hydration_independent_of_probe
    fuel host host' fields fields' start start' ids ids' top node :
  host_wf host → host_wf host' →
  objects host' = objects host →
  getTraceableRunTree host = Some start →
  getTraceableRunTree host' = Some start' →
  climbs (objects host) start ids top → NoDup ids →
  climbs (objects host) start' ids' top → NoDup ids' →
  objects host !! top = Some node →
  rt_parent_run node = None →
  walk_fuel (objects host) ≤ fuel →
  ∃ this this',
    LangChainTracer_new fuel host fields = Done this
    ∧ LangChainTracer_new fuel host' fields' = Done this'
    ∧ runMap this' = runMap this
    ∧ getRun this (rt_id node) = Some top.
Proof.
  intros Hwf Hwf' Hobj Hstart Hstart' Hclimb Hnd Hclimb' Hnd' Htop Hnone Hfuel.
  assert (∀ s js, climbs (objects host) s js top → NoDup js →
                  find_root fuel (objects host) ∅ s = Done top) as Hfind.
  { intros s js Hc Hn.
    assert (length js < fuel) as Hlen.
    { unfold walk_fuel in Hfuel.
      rewrite <- (size_list_to_set (C := gset string) js) by done.
      assert (size (list_to_set js : gset string) ≤ size (heap_ids (objects host))).
      { apply subseteq_size. intros i Hi%elem_of_list_to_set. by eapply climbs_ids. }
      lia. }
    replace fuel with (length js + S (fuel - length js - 1)) by lia.
    rewrite (find_root_along _ _ _ _ Hc) by (done || set_solver).
    by eapply find_root_step_top. }
  destruct (hydration_facts fuel host fields start Hwf Hstart Hfuel)
    as (root & st & this & Hnew & Hroot & Hst & Hmap & Hinv & _).
  destruct (hydration_facts fuel host' fields' start' Hwf' Hstart')
    as (root' & st' & this' & Hnew' & Hroot' & Hst' & Hmap' & _ & _);
    [by rewrite Hobj|].
  rewrite Hobj in Hroot', Hst'.
  rewrite (Hfind _ _ Hclimb Hnd) in Hroot. injection Hroot as <-.
  rewrite (Hfind _ _ Hclimb' Hnd') in Hroot'. injection Hroot' as <-.
  rewrite Hst in Hst'. injection Hst' as <-.
  exists this, this'. split; [done|]. split; [done|]. split; [congruence|].
  unfold getRun. rewrite Hmap. apply (flat_inv_runMap_sets _ _ _ _ Hinv).
  by eapply flatten_sets_root.
Qed.

Lemma chain_climbs_from_C : climbs chain_heap 2 ["C"; "B"] 0.
Proof.
  eapply (climbs_step chain_heap 2); [reflexivity | reflexivity | reflexivity |].
  eapply (climbs_step chain_heap 1); [reflexivity | reflexivity | reflexivity |].
  apply climbs_here.
Qed.

Lemma chain_climbs_from_B : climbs chain_heap 1 ["B"] 0.
Proof.
  eapply (climbs_step chain_heap 1); [reflexivity | reflexivity | reflexivity |].
  apply climbs_here.
Qed.

Lemma hydration_independent_of_probe_witness :
  host_wf (chain_host 2) ∧ host_wf (chain_host 1)
  ∧ objects (chain_host 1) = objects (chain_host 2)
  ∧ getTraceableRunTree (chain_host 2) = Some 2
  ∧ getTraceableRunTree (chain_host 1) = Some 1
  ∧ climbs (objects (chain_host 2)) 2 ["C"; "B"] 0 ∧ NoDup ["C"; "B"]
  ∧ climbs (objects (chain_host 2)) 1 ["B"] 0 ∧ NoDup ["B"]
  ∧ objects (chain_host 2) !! 0 = Some node_A
  ∧ rt_parent_run node_A = None
  ∧ walk_fuel (objects (chain_host 2)) ≤ 8
  ∧ ∃ this this',
      LangChainTracer_new 8 (chain_host 2) no_fields = Done this
      ∧ LangChainTracer_new 8 (chain_host 1) fields_with_client = Done this'
      ∧ runMap this' = runMap this
      ∧ getRun this (rt_id node_A) = Some 0.
Proof.
  assert (host_wf (chain_host 2)) as Hwf2.
  { apply chain_host_wf. by apply (bool_decide_unpack _); vm_compute. }
  assert (host_wf (chain_host 1)) as Hwf1.
  { apply chain_host_wf. by apply (bool_decide_unpack _); vm_compute. }
  assert (NoDup ["C"; "B"]) as Hnd2 by (by apply (bool_decide_unpack _); vm_compute).
  assert (NoDup ["B"]) as Hnd1 by (by apply (bool_decide_unpack _); vm_compute).
  assert (walk_fuel (objects (chain_host 2)) ≤ 8) as Hfuel by (vm_compute; lia).
  split; [exact Hwf2|]. split; [exact Hwf1|]. split; [reflexivity|].
  split; [reflexivity|]. split; [reflexivity|].
  split; [exact chain_climbs_from_C|]. split; [exact Hnd2|].
  split; [exact chain_climbs_from_B|]. split; [exact Hnd1|].
  split; [reflexivity|]. split; [reflexivity|]. split; [exact Hfuel|].
  exact (hydration_independent_of_probe 8 (chain_host 2) (chain_host 1)
           no_fields fields_with_client 2 1 ["C"; "B"] ["B"] 0 node_A
           Hwf2 Hwf1 eq_refl eq_refl eq_refl chain_climbs_from_C Hnd2
           chain_climbs_from_B Hnd1 eq_refl eq_refl Hfuel).
Defined.

(** ** Configuration of the tracer *)

(** What the constructor stores besides the run map, with or without an
    ambient tree. *)
Lemma LangChainTracer_new_config fuel host fields :
  host_wf host →
  walk_fuel (objects host) ≤ fuel →
  ∃ this,
    LangChainTracer_new fuel host fields = Done this
    ∧ projectName this = resolved_projectName host fields
    ∧ exampleId this = f_exampleId fields
    ∧ client this =
        default (default (new_client host) (f_client fields))
          (getTraceableRunTree host ≫= λ l, objects host !! l ≫= rt_client).
Proof.
  intros Hwf Hfuel.
  assert (nullish (f_projectName fields)
            (nullish (getEnvironmentVariable host "LANGCHAIN_PROJECT")
                     (getEnvironmentVariable host "LANGCHAIN_SESSION"))
          = resolved_projectName host fields) as Hname.
  { unfold resolved_projectName, nullish, getEnvironmentVariable.
    destruct (f_projectName fields); [done|].
    by destruct (env_vars host !! "LANGCHAIN_PROJECT"). }
  destruct (getTraceableRunTree host) as [start|] eqn:Hstart.
  - destruct (LangChainTracer_new_with_tree fuel host fields start Hwf Hstart Hfuel)
      as (root & st & tree & this & Hroot & Hst & Htree & Hnew & _ & _).
    exists this. split; [done|].
    unfold LangChainTracer_new in Hnew. rewrite Hstart, Hroot in Hnew.
    simpl in Hnew. unfold flat_init in Hst. rewrite Hst in Hnew. simpl in Hnew.
    unfold deref in Hnew. rewrite Htree in Hnew. simpl in Hnew.
    injection Hnew as <-. simpl. rewrite Htree. simpl. done.
  - unfold LangChainTracer_new. rewrite Hstart. eexists. split; [reflexivity|].
    simpl. done.
Qed.

(** X8: the tracer's project name is the one given in the fields, also when
    it is the empty string; without one it is LANGCHAIN_PROJECT, and without
    that LANGCHAIN_SESSION. An ambient tree does not change it, and it is the
    [session_name] of every creation payload the tracer sends. *)
Theorem project_name_resolution fuel host fields :
  host_wf host →
  walk_fuel (objects host) ≤ fuel →
  ∃ this,
    LangChainTracer_new fuel host fields = Done this
    ∧ (∀ p, f_projectName fields = Some p → projectName this = Some p)
    ∧ (∀ p, f_projectName fields = None →
            env_vars host !! "LANGCHAIN_PROJECT" = Some p → projectName this = Some p)
    ∧ (f_projectName fields = None → env_vars host !! "LANGCHAIN_PROJECT" = None →
       projectName this = env_vars host !! "LANGCHAIN_SESSION")
    ∧ ∀ run sent, ∃ payload,
        (onRunCreate host this run sent).2 = sent ++ [CreateRun (client this) payload]
        ∧ field payload "session_name" = of_opt VString (projectName this).
Proof.
  intros Hwf Hfuel.
  destruct (LangChainTracer_new_config fuel host fields Hwf Hfuel)
    as (this & Hnew & Hname & _ & _).
  exists this. split; [done|]. rewrite Hname. unfold resolved_projectName.
  split; [by intros p ->|]. split; [by intros p -> ->|]. split; [by intros -> ->|].
  intros run sent. eexists. split; [reflexivity|].
  unfold field. rewrite lookup_insert_ne by done. rewrite lookup_insert_eq. simpl.
  by rewrite Hname.
Qed.

Lemma project_name_resolution_witness :
  host_wf (fork_host 3)
  ∧ walk_fuel (objects (fork_host 3)) ≤ 12
  ∧ ∃ this,
      LangChainTracer_new 12 (fork_host 3) fields_with_project = Done this
      ∧ (∀ p, f_projectName fields_with_project = Some p → projectName this = Some p)
      ∧ (∀ p, f_projectName fields_with_project = None →
              env_vars (fork_host 3) !! "LANGCHAIN_PROJECT" = Some p →
              projectName this = Some p)
      ∧ (f_projectName fields_with_project = None →
         env_vars (fork_host 3) !! "LANGCHAIN_PROJECT" = None →
         projectName this = env_vars (fork_host 3) !! "LANGCHAIN_SESSION")
      ∧ ∀ run sent, ∃ payload,
          (onRunCreate (fork_host 3) this run sent).2
            = sent ++ [CreateRun (client this) payload]
          ∧ field payload "session_name" = of_opt VString (projectName this).
Proof.
  assert (host_wf (fork_host 3)) as Hwf.
  { apply fork_host_wf. by apply (bool_decide_unpack _); vm_compute. }
  assert (walk_fuel (objects (fork_host 3)) ≤ 12) as Hfuel by (vm_compute; lia).
  split; [exact Hwf|]. split; [exact Hfuel|].
  exact (project_name_resolution 12 (fork_host 3) fields_with_project Hwf Hfuel).
Defined.

(** With an empty project name in the fields the environment is not
    consulted; without one LANGCHAIN_PROJECT wins over LANGCHAIN_SESSION. *)
Example project_name_examples :
  (λ t, projectName <$> t)
    (match LangChainTracer_new 12 (fork_host 3) fields_with_project with
     | Done t => Some t | _ => None end) = Some (Some "")
  ∧ (λ t, projectName <$> t)
      (match LangChainTracer_new 12 (fork_host 3) no_fields with
       | Done t => Some t | _ => None end) = Some (Some "from-project").
Proof. split; vm_compute; reflexivity. Qed.

(** X9: a tracer constructed inside an ambient tree that carries a client
    sends its create and update requests to that client, one per call, with
    the client's outcome as its own; the update is addressed to the id that
    the creation payload of the same record carries. *)
Theorem requests_go_to_ambient_client fuel host fields tree_ref tree ambient :
  host_wf host →
  walk_fuel (objects host) ≤ fuel →
  getTraceableRunTree host = Some tree_ref →
  objects host !! tree_ref = Some tree →
  rt_client tree = Some ambient →
  ∃ this,
    LangChainTracer_new fuel host fields = Done this
    ∧ ∀ run sent, ∃ payload,
        onRunCreate host this run sent =
          (settle (createRun_rejects host sent ambient payload),
           sent ++ [CreateRun ambient payload])
        ∧ field payload "id" = VString (id run)
        ∧ onRunUpdate host this run sent =
            (settle (updateRun_rejects host sent ambient (id run) (runUpdate run)),
             sent ++ [UpdateRun ambient (id run) (runUpdate run)]).
Proof.
  intros Hwf Hfuel Hstart Htree Hambient.
  destruct (LangChainTracer_new_config fuel host fields Hwf Hfuel)
    as (this & Hnew & _ & _ & Hclient).
  rewrite Hstart in Hclient. simpl in Hclient. rewrite Htree in Hclient.
  simpl in Hclient. rewrite Hambient in Hclient. simpl in Hclient.
  exists this. split; [done|]. intros run sent. eexists.
  split; [|split].
  - unfold onRunCreate, exec_bind. simpl. unfold Client_createRun.
    rewrite Hclient. reflexivity.
  - reflexivity.
  - unfold onRunUpdate, Client_updateRun. by rewrite Hclient.
Qed.

Lemma requests_go_to_ambient_client_witness :
  host_wf (chain_host 1)
  ∧ walk_fuel (objects (chain_host 1)) ≤ 8
  ∧ getTraceableRunTree (chain_host 1) = Some 1
  ∧ objects (chain_host 1) !! 1 = Some node_B
  ∧ rt_client node_B = Some (ClientRef 7)
  ∧ ∃ this,
      LangChainTracer_new 8 (chain_host 1) fields_with_client = Done this
      ∧ ∀ run sent, ∃ payload,
          onRunCreate (chain_host 1) this run sent =
            (settle (createRun_rejects (chain_host 1) sent (ClientRef 7) payload),
             sent ++ [CreateRun (ClientRef 7) payload])
          ∧ field payload "id" = VString (id run)
          ∧ onRunUpdate (chain_host 1) this run sent =
              (settle (updateRun_rejects (chain_host 1) sent (ClientRef 7) (id run)
                         (runUpdate run)),
               sent ++ [UpdateRun (ClientRef 7) (id run) (runUpdate run)]).
Proof.
  assert (host_wf (chain_host 1)) as Hwf.
  { apply chain_host_wf. by apply (bool_decide_unpack _); vm_compute. }
  assert (walk_fuel (objects (chain_host 1)) ≤ 8) as Hfuel by (vm_compute; lia).
  split; [exact Hwf|]. split; [exact Hfuel|]. split; [reflexivity|].
  split; [reflexivity|]. split; [reflexivity|].
  exact (requests_go_to_ambient_client 8 (chain_host 1) fields_with_client 1 node_B
           (ClientRef 7) Hwf Hfuel eq_refl eq_refl eq_refl).
Defined.

(** X10: a tracer never links a run to an example other than the one given
    at construction: constructed without an example id it sends every
    creation payload, of a root or not, without [reference_example_id], and
    a payload that carries one carries the configured one and belongs to a
    run whose [parent_run_id] is absent or empty. *)
Theorem example_link_only_as_configured fuel host fields :
  host_wf host →
  walk_fuel (objects host) ≤ fuel →
  ∃ this,
    LangChainTracer_new fuel host fields = Done this
    ∧ ∀ run sent, ∃ payload,
        (onRunCreate host this run sent).2 = sent ++ [CreateRun (client this) payload]
        ∧ (f_exampleId fields = None →
           field payload "reference_example_id" = VUndefined)
        ∧ (∀ v, field payload "reference_example_id" = VString v →
                f_exampleId fields = Some v
                ∧ (parent_run_id run = None ∨ parent_run_id run = Some "")).
Proof.
  intros Hwf Hfuel.
  destruct (LangChainTracer_new_config fuel host fields Hwf Hfuel)
    as (this & Hnew & _ & Hexample & _).
  exists this. split; [done|]. intros run sent.
  destruct (_convertToCreate_pure host this run (exampleId this) sent) as [payload Hp].
  exists payload. split.
  { unfold onRunCreate, exec_bind. rewrite Hp. reflexivity. }
  rewrite (reference_example_id_spec _ _ _ _ _ _ Hp), Hexample.
  destruct (truthy_string (parent_run_id run)) eqn:Htruthy; split; try done.
  - by intros ->.
  - intros v Hv. apply truthy_string_false in Htruthy.
    destruct (f_exampleId fields) as [e|]; simpl in Hv; [|done].
    by injection Hv as ->.
Qed.

Lemma example_link_only_as_configured_witness :
  host_wf (fork_host 3)
  ∧ walk_fuel (objects (fork_host 3)) ≤ 12
  ∧ ∃ this,
      LangChainTracer_new 12 (fork_host 3) no_fields = Done this
      ∧ ∀ run sent, ∃ payload,
          (onRunCreate (fork_host 3) this run sent).2
            = sent ++ [CreateRun (client this) payload]
          ∧ (f_exampleId no_fields = None →
             field payload "reference_example_id" = VUndefined)
          ∧ (∀ v, field payload "reference_example_id" = VString v →
                  f_exampleId no_fields = Some v
                  ∧ (parent_run_id run = None ∨ parent_run_id run = Some "")).
Proof.
  assert (host_wf (fork_host 3)) as Hwf.
  { apply fork_host_wf. by apply (bool_decide_unpack _); vm_compute. }
  assert (walk_fuel (objects (fork_host 3)) ≤ 12) as Hfuel by (vm_compute; lia).
  split; [exact Hwf|]. split; [exact Hfuel|].
  exact (example_link_only_as_configured 12 (fork_host 3) no_fields Hwf Hfuel).
Defined.

(** ** More on the payloads *)


(** X12: the [extra] of the creation payload keeps every entry of the
    record's [extra] other than [runtime]; for a record without [extra] it
    holds the [runtime] entry alone. *)
Theorem create_payload_extra host this run example_id sent :
  ∃ payload merged,
    _convertToCreate host this run example_id sent = (Ok payload, sent)
    ∧ field payload "extra" = VMap merged
    ∧ dom merged = {["runtime"]} ∪ dom (default ∅ (extra run))
    ∧ (∀ k, k ≠ "runtime" → merged !! k = default ∅ (extra run) !! k)
    ∧ (extra run = None → merged = {["runtime" := runtime_environment host]})
    ∧ (∀ m, extra run = Some m → m !! "runtime" = Some (runtime_environment host) →
            merged = m).
Proof.
  do 2 eexists. split; [reflexivity|]. split.
  { unfold field.
    by rewrite lookup_insert_ne, lookup_insert_ne, lookup_insert_ne, lookup_insert_eq. }
  split; [by rewrite dom_insert_L|].
  split; [intros k ?; by rewrite lookup_insert_ne|]. split.
  - intros ->. simpl. by rewrite insert_empty.
  - intros m -> Hm. simpl. by apply insert_id.
Qed.


(** ** Invoking a traceable function *)

(** X14: a runnable built from a traceable function calls it with the
    resolved configuration, the callbacks derived from that configuration,
    and the input as given; what the function returns, value or error, is
    what [invoke] returns. *)
Theorem invoke_forwards_to_function
    {RunInput RunOutput Config Callbacks : Type}
    (getOptions : option Config → Config) (getCallbacks : Config → Callbacks)
    (f : @AnyTraceableFunction RunInput RunOutput Config Callbacks)
    (input : RunInput) (options : option Config) :
  isTraceableFunction f = true →
  construct_and_invoke getOptions getCallbacks f input options
  = fn_call f (getOptions options, getCallbacks (getOptions options)) input.
Proof.
  intros Hyes. unfold construct_and_invoke, RunnableTraceable_new.
  rewrite Hyes. reflexivity.
Qed.

Lemma invoke_forwards_to_function_witness :
  isTraceableFunction failing_function = true
  ∧ construct_and_invoke (λ _, tt) (λ _, tt) failing_function "input" None
    = fn_call failing_function (tt, tt) "input".
Proof.
  split; [reflexivity|].
  exact (invoke_forwards_to_function (λ _, tt) (λ _, tt) failing_function "input" None
           eq_refl).
Defined.
